(** * cpp-simd: 128-bit vector wrappers and aligned storage

    A shallow embedding of [src/simd.hpp] and [src/simd_128.hpp].

    - A 128-bit register ([__m128i], [__m128]) is a [Z]; lane [k] is the
      bit field [32k .. 32k+31].  Lanes hold raw 32-bit patterns: a signed
      integer lane is read through [int32_t], a float lane is a binary32
      pattern decoded by [Float32.decode].
    - The SSE intrinsics the headers call are written out once, in module
      [SSE], following the pseudo-code of the Intel intrinsics guide; the
      two classes [Vect128i] and [Vect128f] are then transcribed method by
      method on top of them.
    - [AlignedStorage] is a record of the three private members plus the
      two template parameters; its methods run over an explicit byte heap
      and return either a value or the exception they throw. *)

From Stdlib Require Import ZArith Lia List Bool String SpecFloat.
From coqutil Require Import Z.bitblast.
Import ListNotations.
Local Open Scope Z_scope.

(* ================================================================= *)
(** ** Fixed-width integers *)

Module Machine.

Definition mask8 : Z := 0xFF.
Definition mask32 : Z := 0xFFFFFFFF.
Definition mask64 : Z := 0xFFFFFFFFFFFFFFFF.
Definition mask128 : Z := 0xFFFFFFFFFFFFFFFFFFFFFFFFFFFFFFFF.

(** Truncation to an unsigned 32-bit / 64-bit value. *)
Definition u32 (x : Z) : Z := Z.land x mask32.
Definition u64 (x : Z) : Z := Z.land x mask64.

(** The value of a 32-bit pattern read as [int32_t] (two's complement). *)
Definition int32_t (x : Z) : Z :=
  let u := u32 x in if u <? 2 ^ 31 then u else u - 2 ^ 32.

Definition in_int32 (x : Z) : Prop := - 2 ^ 31 <= x < 2 ^ 31.
Definition in_u32 (x : Z) : Prop := 0 <= x < 2 ^ 32.

(** [uintptr_t] and [size_t] are 64 bits wide on the x86-64 targets the
    headers compile for. *)
Definition uintptr_t (x : Z) : Z := x mod 2 ^ 64.
Definition size_t (x : Z) : Z := x mod 2 ^ 64.

End Machine.
Import Machine.

(* ================================================================= *)
(** ** Byte-addressed memory *)

Module Memory.

(** [write p bs h]: the bytes [bs] stored at [p], [p+1], ... *)
Fixpoint write (p : Z) (bs : list Z) (h : Z -> Z) : Z -> Z :=
  match bs with
  | [] => h
  | b :: bs' => write (p + 1) bs' (fun a => if a =? p then b else h a)
  end.

(** [read p n h]: the [n] bytes found at [p], [p+1], ... *)
Fixpoint read (p : Z) (n : nat) (h : Z -> Z) : list Z :=
  match n with
  | O => []
  | S n' => h p :: read (p + 1) n' h
  end.

End Memory.

(* ================================================================= *)
(** ** binary32 bit patterns *)

Module Float32.

Definition prec : Z := 24.
Definition emax : Z := 128.

(** Fields of a binary32 pattern. *)
Definition sign_of (x : Z) : bool := Z.testbit x 31.
Definition expo_of (x : Z) : Z := Z.land (Z.shiftr x 23) 0xFF.
Definition frac_of (x : Z) : Z := Z.land x 0x7FFFFF.

(** The value a 32-bit pattern denotes. *)
Definition decode (x : Z) : spec_float :=
  let s := sign_of x in
  let e := expo_of x in
  let m := frac_of x in
  if e =? 0 then
    match m with
    | Zpos p => S754_finite s p (-149)
    | _ => S754_zero s
    end
  else if e =? 255 then
    match m with
    | Zpos _ => S754_nan
    | _ => S754_infinity s
    end
  else
    match m + 0x800000 with
    | Zpos p => S754_finite s p (e - 150)
    | _ => S754_nan
    end.

(** The pattern of a value; the only NaN ever encoded here is the x86
    default quiet NaN. *)
Definition encode (f : spec_float) : Z :=
  let sgn (s : bool) := if s then 0x80000000 else 0 in
  match f with
  | S754_zero s => sgn s
  | S754_infinity s => Z.lor (sgn s) 0x7F800000
  | S754_nan => 0xFFC00000
  | S754_finite s m e =>
      if Zpos m <? 0x800000 then Z.lor (sgn s) (Zpos m)
      else Z.lor (sgn s) (Z.lor (Z.shiftl (e + 150) 23) (Zpos m - 0x800000))
  end.

(** Conversion of an integer value to [float] (round to nearest, ties to
    even), as performed when an integer expression initialises a
    [float] parameter. *)
Definition of_Z (n : Z) : Z := encode (binary_normalize prec emax n 0 false).

(** [std::isnan]. *)
Definition isnan (x : Z) : bool :=
  match decode x with
  | S754_nan => true
  | _ => false
  end.

(** IEEE-754 ordered comparisons on patterns: each is false as soon as
    one operand is NaN. *)
Definition ltb (x y : Z) : bool := SFltb (decode x) (decode y).
Definition leb (x y : Z) : bool := SFleb (decode x) (decode y).
Definition eqb (x y : Z) : bool := SFeqb (decode x) (decode y).
Definition gtb (x y : Z) : bool := ltb y x.
Definition geb (x y : Z) : bool := leb y x.

Definition pos_zero : Z := 0.

(** Truncation toward zero of the value of a pattern; [None] for
    infinities and NaN. *)
Definition trunc (x : Z) : option Z :=
  match decode x with
  | S754_zero _ => Some 0
  | S754_finite s m e =>
      let a := Z.shiftl (Zpos m) e in
      Some (if s then - a else a)
  | _ => None
  end.

End Float32.

(* ================================================================= *)
(** ** The SSE intrinsics used by the headers *)

Module SSE.

Definition __m128i : Type := Z.
Definition __m128 : Type := Z.

(** 32-bit lane [k] of a register (lane 0 is bits 31..0). *)
Definition lane (k : Z) (v : Z) : Z := Z.land (Z.shiftr v (32 * k)) mask32.

(** The register whose lanes 0..3 are the low 32 bits of [x0 .. x3]. *)
Definition pack (x0 x1 x2 x3 : Z) : Z :=
  Z.lor (u32 x0)
    (Z.lor (Z.shiftl (u32 x1) 32)
       (Z.lor (Z.shiftl (u32 x2) 64) (Z.shiftl (u32 x3) 96))).

Definition map2 (f : Z -> Z -> Z) (a b : Z) : Z :=
  pack (f (lane 0 a) (lane 0 b)) (f (lane 1 a) (lane 1 b))
       (f (lane 2 a) (lane 2 b)) (f (lane 3 a) (lane 3 b)).

Definition all_ones_if (b : bool) : Z := if b then mask32 else 0.

(** *** Integer lanes *)

Definition _mm_set1_epi32 (a : Z) : __m128i := pack a a a a.

(** [_mm_setr_epi32] takes its arguments in memory order: the first one
    lands in bits 31..0. *)
Definition _mm_setr_epi32 (e3 e2 e1 e0 : Z) : __m128i := pack e3 e2 e1 e0.

Definition _mm_add_epi32 : __m128i -> __m128i -> __m128i :=
  map2 (fun x y => x + y).
Definition _mm_sub_epi32 : __m128i -> __m128i -> __m128i :=
  map2 (fun x y => x - y).

(** Low 32 bits of the signed 64-bit product of each lane pair. *)
Definition _mm_mullo_epi32 : __m128i -> __m128i -> __m128i :=
  map2 (fun x y => int32_t x * int32_t y).

(** Unsigned 32x32 -> 64 multiply of lanes 0 and 2. *)
Definition _mm_mul_epu32 (a b : __m128i) : __m128i :=
  Z.lor (u64 (lane 0 a * lane 0 b))
        (Z.shiftl (u64 (lane 2 a * lane 2 b)) 64).

(** Byte-wise logical right shift of the whole register. *)
Definition _mm_srli_si128 (a : __m128i) (imm8 : Z) : __m128i :=
  let n := if 15 <? imm8 then 16 else imm8 in
  Z.shiftr (Z.land a mask128) (8 * n).

Definition _MM_SHUFFLE (z y x w : Z) : Z :=
  Z.lor (Z.shiftl z 6) (Z.lor (Z.shiftl y 4) (Z.lor (Z.shiftl x 2) w)).

Definition _mm_shuffle_epi32 (a : __m128i) (imm8 : Z) : __m128i :=
  pack (lane (Z.land imm8 3) a)
       (lane (Z.land (Z.shiftr imm8 2) 3) a)
       (lane (Z.land (Z.shiftr imm8 4) 3) a)
       (lane (Z.land (Z.shiftr imm8 6) 3) a).

Definition _mm_unpacklo_epi32 (a b : __m128i) : __m128i :=
  pack (lane 0 a) (lane 0 b) (lane 1 a) (lane 1 b).

Definition _mm_and_si128 (a b : __m128i) : __m128i := Z.land a b.
Definition _mm_or_si128 (a b : __m128i) : __m128i := Z.lor a b.
Definition _mm_xor_si128 (a b : __m128i) : __m128i := Z.lxor a b.

Definition _mm_cmplt_epi32 : __m128i -> __m128i -> __m128i :=
  map2 (fun x y => all_ones_if (int32_t x <? int32_t y)).
Definition _mm_cmpgt_epi32 : __m128i -> __m128i -> __m128i :=
  map2 (fun x y => all_ones_if (int32_t x >? int32_t y)).
Definition _mm_cmpeq_epi32 : __m128i -> __m128i -> __m128i :=
  map2 (fun x y => all_ones_if (int32_t x =? int32_t y)).

(** *** Float lanes *)

Definition _mm_set1_ps (a : Z) : __m128 := pack a a a a.
Definition _mm_setr_ps (e3 e2 e1 e0 : Z) : __m128 := pack e3 e2 e1 e0.

Definition _mm_and_ps (a b : __m128) : __m128 := Z.land a b.
Definition _mm_or_ps (a b : __m128) : __m128 := Z.lor a b.
Definition _mm_xor_ps (a b : __m128) : __m128 := Z.lxor a b.

Definition _mm_cmplt_ps : __m128 -> __m128 -> __m128 :=
  map2 (fun x y => all_ones_if (Float32.ltb x y)).
Definition _mm_cmpgt_ps : __m128 -> __m128 -> __m128 :=
  map2 (fun x y => all_ones_if (Float32.gtb x y)).
Definition _mm_cmpeq_ps : __m128 -> __m128 -> __m128 :=
  map2 (fun x y => all_ones_if (Float32.eqb x y)).
Definition _mm_cmpngt_ps : __m128 -> __m128 -> __m128 :=
  map2 (fun x y => all_ones_if (negb (Float32.gtb x y))).
Definition _mm_cmpnlt_ps : __m128 -> __m128 -> __m128 :=
  map2 (fun x y => all_ones_if (negb (Float32.ltb x y))).
Definition _mm_cmpneq_ps : __m128 -> __m128 -> __m128 :=
  map2 (fun x y => all_ones_if (negb (Float32.eqb x y))).

(** *** Stores

    An unaligned store writes the sixteen bytes of the register at
    increasing addresses, least significant byte first. *)
Definition byte_at (v : Z) (j : Z) : Z := Z.land (Z.shiftr v (8 * j)) mask8.

Definition _mm_storeu_si128 (a : __m128i) : list Z :=
  map (byte_at a) [0; 1; 2; 3; 4; 5; 6; 7; 8; 9; 10; 11; 12; 13; 14; 15].

Definition _mm_storeu_ps (a : __m128) : list Z :=
  map (byte_at a) [0; 1; 2; 3; 4; 5; 6; 7; 8; 9; 10; 11; 12; 13; 14; 15].

(** Element [idx] of a byte buffer viewed as an array of 4-byte objects;
    [None] when the object does not lie inside the buffer. *)
Definition read32 (buf : list Z) (idx : Z) : option Z :=
  if idx <? 0 then None else
  let i := Z.to_nat (4 * idx) in
  match nth_error buf i, nth_error buf (i + 1),
        nth_error buf (i + 2), nth_error buf (i + 3) with
  | Some b0, Some b1, Some b2, Some b3 =>
      Some (Z.lor b0 (Z.lor (Z.shiftl b1 8)
               (Z.lor (Z.shiftl b2 16) (Z.shiftl b3 24))))
  | _, _, _, _ => None
  end.

(** *** Loads

    Sixteen bytes taken at increasing addresses, least significant
    first. *)
Fixpoint of_bytes (bs : list Z) : Z :=
  match bs with
  | [] => 0
  | b :: bs' => Z.lor (Z.land b mask8) (Z.shiftl (of_bytes bs') 8)
  end.

Definition _mm_loadu_si128 (mem : list Z) : __m128i := of_bytes mem.
Definition _mm_loadu_ps (mem : list Z) : __m128 := of_bytes mem.

(** *** Minimum and maximum *)

Definition _mm_min_epi32 : __m128i -> __m128i -> __m128i :=
  map2 (fun x y => Z.min (int32_t x) (int32_t y)).
Definition _mm_max_epi32 : __m128i -> __m128i -> __m128i :=
  map2 (fun x y => Z.max (int32_t x) (int32_t y)).

(** [MINPS] and [MAXPS] return the second operand unless the first is
    strictly smaller (resp. greater): so they do when an operand is NaN
    and when both are zeros. *)
Definition _mm_min_ps : __m128 -> __m128 -> __m128 :=
  map2 (fun x y => if Float32.ltb x y then x else y).
Definition _mm_max_ps : __m128 -> __m128 -> __m128 :=
  map2 (fun x y => if Float32.gtb x y then x else y).

(** *** Conversions *)

(** Each signed lane converted to the nearest [float]. *)
Definition _mm_cvtepi32_ps (a : __m128i) : __m128 :=
  pack (Float32.of_Z (int32_t (lane 0 a))) (Float32.of_Z (int32_t (lane 1 a)))
       (Float32.of_Z (int32_t (lane 2 a))) (Float32.of_Z (int32_t (lane 3 a))).

(** Truncating conversion of one lane; a NaN, an infinity or a value
    outside the [int32_t] range gives the "integer indefinite"
    [0x80000000]. *)
Definition cvtt_lane (x : Z) : Z :=
  match Float32.trunc x with
  | Some z => if (- 2 ^ 31 <=? z) && (z <? 2 ^ 31) then z else 0x80000000
  | None => 0x80000000
  end.

Definition _mm_cvttps_epi32 (a : __m128) : __m128i :=
  pack (cvtt_lane (lane 0 a)) (cvtt_lane (lane 1 a))
       (cvtt_lane (lane 2 a)) (cvtt_lane (lane 3 a)).

End SSE.
Import SSE.

(* ================================================================= *)
(** ** class Vect128i *)

Module Vect128i.

(** The class has the single member [__m128i val] and converts to and
    from it implicitly. *)
Definition t : Type := __m128i.

(** [Vect128i(int32_t i)] *)
Definition broadcast (i : Z) : t := _mm_set1_epi32 i.

(** [Vect128i(int32_t i0, int32_t i1, int32_t i2, int32_t i3)] *)
Definition of_lanes (i0 i1 i2 i3 : Z) : t := _mm_setr_epi32 i0 i1 i2 i3.

(** [storeu(int32_t* p)]: the bytes written at [p]. *)
Definition storeu (v : t) : list Z := _mm_storeu_si128 v.

(** [operator[](unsigned int idx)]: store into a local [int32_t array[4]]
    and read [array[idx]]; [None] stands for the out-of-bounds read the
    method does not guard against. *)
Definition index (v : t) (idx : Z) : option Z :=
  let array := storeu v in
  option_map int32_t (read32 array idx).

Definition op_xor (a v : t) : t := _mm_xor_si128 a v.
Definition op_and (a v : t) : t := _mm_and_si128 a v.
Definition op_or (a v : t) : t := _mm_or_si128 a v.

(** [operator~]: the literal [0xFFFFFFFF] is converted to [int32_t]. *)
Definition op_not (a : t) : t := op_xor a (broadcast (int32_t 0xFFFFFFFF)).

Definition op_add (a v : t) : t := _mm_add_epi32 a v.
Definition op_sub (a v : t) : t := _mm_sub_epi32 a v.

(** The two bodies of [operator*]. *)
Definition mul_native (a v : t) : t := _mm_mullo_epi32 a v.

Definition mul_fallback (a v : t) : t :=
  let t1 := _mm_mul_epu32 a v in
  let t2 := _mm_mul_epu32 (_mm_srli_si128 a 4) (_mm_srli_si128 v 4) in
  _mm_unpacklo_epi32
    (_mm_shuffle_epi32 t1 (_MM_SHUFFLE 0 0 2 0))
    (_mm_shuffle_epi32 t2 (_MM_SHUFFLE 0 0 2 0)).

(** [operator*], the preprocessor symbol being a parameter. *)
Definition op_mul (HAVE_SSE41 : bool) (a v : t) : t :=
  if HAVE_SSE41 then mul_native a v else mul_fallback a v.

Definition op_lt (a v : t) : t := _mm_cmplt_epi32 a v.
Definition op_gt (a v : t) : t := _mm_cmpgt_epi32 a v.
Definition op_eq (a v : t) : t := _mm_cmpeq_epi32 a v.
Definition op_le (a v : t) : t := op_not (op_gt a v).
Definition op_ge (a v : t) : t := op_not (op_lt a v).
Definition op_ne (a v : t) : t := op_not (op_eq a v).

(** [loadu(const int32_t* p)], over the memory [h]. *)
Definition loadu (h : Z -> Z) (p : Z) : t :=
  _mm_loadu_si128 (Memory.read p 16 h).

(** [load(const int32_t* p)]: the aligned load faults ([None]) when [p]
    is not a multiple of 16. *)
Definition load (h : Z -> Z) (p : Z) : option t :=
  if p mod 16 =? 0 then Some (_mm_loadu_si128 (Memory.read p 16 h)) else None.

(** [storeu(int32_t* p)], as the memory after the call. *)
Definition storeu_to (v : t) (p : Z) (h : Z -> Z) : Z -> Z :=
  Memory.write p (_mm_storeu_si128 v) h.

(** [store(int32_t* p)]: the aligned store faults ([None]) when [p] is
    not a multiple of 16. *)
Definition store (v : t) (p : Z) (h : Z -> Z) : option (Z -> Z) :=
  if p mod 16 =? 0 then Some (Memory.write p (_mm_storeu_si128 v) h) else None.

(** [operator Vect128f()] *)
Definition to_float (v : t) : __m128 := _mm_cvtepi32_ps v.

End Vect128i.

(* ================================================================= *)
(** ** class Vect128f *)

Module Vect128f.

Definition t : Type := __m128.

(** [Vect128f(float i)] *)
Definition broadcast (i : Z) : t := _mm_set1_ps i.

(** [Vect128f(float i0, float i1, float i2, float i3)] *)
Definition of_lanes (i0 i1 i2 i3 : Z) : t := _mm_setr_ps i0 i1 i2 i3.

Definition storeu (v : t) : list Z := _mm_storeu_ps v.

(** [operator[](unsigned int idx)], through a local [float array[4]]. *)
Definition index (v : t) (idx : Z) : option Z :=
  let array := storeu v in
  read32 array idx.

Definition op_xor (a v : t) : t := _mm_xor_ps a v.
Definition op_and (a v : t) : t := _mm_and_ps a v.
Definition op_or (a v : t) : t := _mm_or_ps a v.

(** [operator~] is [operator^(Vect128f(0xFFFFFFFF))].  The only
    one-argument constructor that accepts the [unsigned] literal is
    [Vect128f(float)], so the literal undergoes an integer-to-float
    conversion before it is broadcast. *)
Definition op_not (a : t) : t :=
  op_xor a (broadcast (Float32.of_Z 0xFFFFFFFF)).

Definition op_lt (a v : t) : t := _mm_cmplt_ps a v.
Definition op_le (a v : t) : t := _mm_cmpngt_ps a v.
Definition op_gt (a v : t) : t := _mm_cmpgt_ps a v.
Definition op_ge (a v : t) : t := _mm_cmpnlt_ps a v.
Definition op_eq (a v : t) : t := _mm_cmpeq_ps a v.
Definition op_ne (a v : t) : t := _mm_cmpneq_ps a v.

(** [loadu(const float* p)] and [load(const float* p)]. *)
Definition loadu (h : Z -> Z) (p : Z) : t :=
  _mm_loadu_ps (Memory.read p 16 h).

Definition load (h : Z -> Z) (p : Z) : option t :=
  if p mod 16 =? 0 then Some (_mm_loadu_ps (Memory.read p 16 h)) else None.

(** [storeu(float* p)] and [store(float* p)]. *)
Definition storeu_to (v : t) (p : Z) (h : Z -> Z) : Z -> Z :=
  Memory.write p (_mm_storeu_ps v) h.

Definition store (v : t) (p : Z) (h : Z -> Z) : option (Z -> Z) :=
  if p mod 16 =? 0 then Some (Memory.write p (_mm_storeu_ps v) h) else None.

(** [to_int()] *)
Definition to_int (v : t) : __m128i := _mm_cvttps_epi32 v.

End Vect128f.

(* ================================================================= *)
(** ** class AlignedStorage<T, Align> *)

Module AlignedStorage.

(** Memory is a map from addresses to bytes. *)
Definition heap : Type := Z -> Z.

Inductive exn : Type :=
| out_of_range (what : string).

Inductive outcome (A : Type) : Type :=
| Return (a : A)
| Throw (e : exn).
Arguments Return {A} a.
Arguments Throw {A} e.

(** A method body: it runs over the heap and either returns or throws. *)
Definition M (A : Type) : Type := heap -> outcome A * heap.

Definition ret {A} (a : A) : M A := fun h => (Return a, h).
Definition throw {A} (e : exn) : M A := fun h => (Throw e, h).
Definition bind {A B} (m : M A) (k : A -> M B) : M B :=
  fun h => match m h with
           | (Return a, h') => k a h'
           | (Throw e, h') => (Throw e, h')
           end.
Definition modify (f : heap -> heap) : M unit := fun h => (Return tt, f h).

Notation "x <- m ;; k" := (bind m (fun x => k))
  (at level 61, m at next level, right associativity).

(** [memset(p, c, n)] *)
Definition memset (p c n : Z) : heap -> heap :=
  fun h a => if (p <=? a) && (a <? p + n) then c else h a.

Section Template.

(** [sizeof(T)] and the template argument [int Align]. *)
Variable sizeofT : Z.
Variable Align : Z.

(** The members [length], [raw_val] and [aligned]; [raw] owns the block
    that starts at [raw_val]. *)
Record t : Type := mk {
  length : Z;
  raw_val : Z;
  aligned : Z
}.

(** The argument of [malloc] in the constructor, computed in [size_t]. *)
Definition malloc_size (len : Z) : Z :=
  size_t (size_t (len * sizeofT) + size_t Align).

(** The constructor, given the pointer [raw] that [malloc] returned.
    [Align] is promoted to the unsigned type of [raw_val] in
    [raw_val % Align] and in the subtraction. *)
Definition ctor (len : Z) (raw : Z) : t :=
  let raw_val := uintptr_t raw in
  {| length := len;
     raw_val := raw_val;
     aligned :=
       uintptr_t
         (raw_val + size_t (size_t Align - raw_val mod size_t Align)) |}.

(** [clear()] *)
Definition clear (s : t) : M unit :=
  modify (memset (aligned s) 0 (size_t (length s * sizeofT))).

(** [operator T*()] *)
Definition to_ptr (s : t) : M Z := ret (aligned s).

(** [operator+(int i)] and [operator-(int i)]: pointer arithmetic in
    units of [T]. *)
Definition op_plus (s : t) (i : Z) : M Z := ret (aligned s + i * sizeofT).
Definition op_minus (s : t) (i : Z) : M Z := ret (aligned s - i * sizeofT).

(** [operator[](int i)]: the reference [aligned[i]], as the address of
    the element. *)
Definition op_index (s : t) (i : Z) : M Z := ret (aligned s + i * sizeofT).

(** [at(int i)].  In [i >= length] the [int] is converted to
    [size_t]; the test is only reached when [i < 0] is false. *)
Definition at_ (s : t) (i : Z) : M Z :=
  if (i <? 0) || (size_t i >=? length s) then
    throw (out_of_range "outside of aligned storage boundary")
  else
    ret (aligned s + i * sizeofT).

(** The public methods, as one type of calls. *)
Inductive method : Type :=
| Clear
| ToPtr
| Plus (i : Z)
| Minus (i : Z)
| Index (i : Z)
| At (i : Z).

(** Result of a call: [None] for [void]. *)
Definition call (m : method) (s : t) : M (option Z) :=
  match m with
  | Clear => _ <- clear s ;; ret None
  | ToPtr => p <- to_ptr s ;; ret (Some p)
  | Plus i => p <- op_plus s i ;; ret (Some p)
  | Minus i => p <- op_minus s i ;; ret (Some p)
  | Index i => p <- op_index s i ;; ret (Some p)
  | At i => p <- at_ s i ;; ret (Some p)
  end.

End Template.


(** A block of [n] bytes at [p] that the allocator can have handed out:
    [p] is not null and the block, with its one-past-the-end address,
    lies inside the 64-bit address space. *)
Definition block (p n : Z) : Prop := 0 < p /\ 0 <= n /\ p + n < 2 ^ 64.

End AlignedStorage.

(* ================================================================= *)
(** ** Free functions of namespace [sight] *)

Module Sight.

(** [room<M>(index, length)] *)
Definition room (M index length : Z) : bool := index + M <=? length.

(** [std::min] and [std::max] on [int32_t]. *)
Definition std_min (a b : Z) : Z := if b <? a then b else a.
Definition std_max (a b : Z) : Z := if a <? b then b else a.

(** [lowest(const Vect128i&, const Vect128i&)]; without [HAVE_SSE41] the
    lanes are read with [operator[]] and rebuilt. *)
Definition lowest_i (HAVE_SSE41 : bool) (v v2 : Vect128i.t)
  : option Vect128i.t :=
  if HAVE_SSE41 then Some (_mm_min_epi32 v v2)
  else
    match Vect128i.index v 0, Vect128i.index v2 0,
          Vect128i.index v 1, Vect128i.index v2 1,
          Vect128i.index v 2, Vect128i.index v2 2,
          Vect128i.index v 3, Vect128i.index v2 3 with
    | Some a0, Some b0, Some a1, Some b1, Some a2, Some b2, Some a3, Some b3 =>
        Some (Vect128i.of_lanes (std_min a0 b0) (std_min a1 b1)
                                (std_min a2 b2) (std_min a3 b3))
    | _, _, _, _, _, _, _, _ => None
    end.

(** [highest(const Vect128i&, const Vect128i&)] *)
Definition highest_i (HAVE_SSE41 : bool) (v v2 : Vect128i.t)
  : option Vect128i.t :=
  if HAVE_SSE41 then Some (_mm_max_epi32 v v2)
  else
    match Vect128i.index v 0, Vect128i.index v2 0,
          Vect128i.index v 1, Vect128i.index v2 1,
          Vect128i.index v 2, Vect128i.index v2 2,
          Vect128i.index v 3, Vect128i.index v2 3 with
    | Some a0, Some b0, Some a1, Some b1, Some a2, Some b2, Some a3, Some b3 =>
        Some (Vect128i.of_lanes (std_max a0 b0) (std_max a1 b1)
                                (std_max a2 b2) (std_max a3 b3))
    | _, _, _, _, _, _, _, _ => None
    end.

(** [lowest] and [highest] on [Vect128f]. *)
Definition lowest_f (v v2 : Vect128f.t) : Vect128f.t := _mm_min_ps v v2.
Definition highest_f (v v2 : Vect128f.t) : Vect128f.t := _mm_max_ps v v2.

End Sight.

(* ================================================================= *)
(** ** Proof tactics *)

(** Case analysis on a lane index known to lie in 0..3. *)
Ltac four_lanes k :=
  let H := fresh in
  assert (k = 0 \/ k = 1 \/ k = 2 \/ k = 3) as H by lia;
  destruct H as [-> | [-> | [-> | ->]]];
  [ try change (Z.to_nat 0) with 0%nat
  | try change (Z.to_nat 1) with 1%nat
  | try change (Z.to_nat 2) with 2%nat
  | try change (Z.to_nat 3) with 3%nat ].

(* ================================================================= *)
(** ** Lanes, packing and stores *)

Section LaneFacts.

Local Ltac bits32 :=
  unfold lane, pack, u32, byte_at, mask32, mask8;
  change 0xFFFFFFFF with (Z.ones 32); change 0xFF with (Z.ones 8);
  Z.bitblast.

Lemma lane_pack_0 x0 x1 x2 x3 : lane 0 (pack x0 x1 x2 x3) = u32 x0.
Proof. bits32. Qed.

Lemma lane_pack_1 x0 x1 x2 x3 : lane 1 (pack x0 x1 x2 x3) = u32 x1.
Proof. bits32. Qed.

Lemma lane_pack_2 x0 x1 x2 x3 : lane 2 (pack x0 x1 x2 x3) = u32 x2.
Proof. bits32. Qed.

Lemma lane_pack_3 x0 x1 x2 x3 : lane 3 (pack x0 x1 x2 x3) = u32 x3.
Proof. bits32. Qed.

(** Four consecutive stored bytes reassemble the lane they came from. *)
Lemma bytes_of_lane (v : Z) (k : Z) :
  0 <= k ->
  Z.lor (byte_at v (4 * k))
    (Z.lor (Z.shiftl (byte_at v (4 * k + 1)) 8)
       (Z.lor (Z.shiftl (byte_at v (4 * k + 2)) 16)
              (Z.shiftl (byte_at v (4 * k + 3)) 24))) = lane k v.
Proof. intros Hk. bits32. Qed.

End LaneFacts.


(* ================================================================= *)
(** ** Truncation and the signed reading *)

Section Wrapping.

Lemma u32_mod (x : Z) : u32 x = x mod 2 ^ 32.
Proof.
  unfold u32, mask32. change 0xFFFFFFFF with (Z.ones 32).
  apply Z.land_ones; lia.
Qed.

Lemma u64_mod (x : Z) : u64 x = x mod 2 ^ 64.
Proof.
  unfold u64, mask64. change 0xFFFFFFFFFFFFFFFF with (Z.ones 64).
  apply Z.land_ones; lia.
Qed.

Lemma u32_range (x : Z) : in_u32 (u32 x).
Proof. unfold in_u32. rewrite u32_mod. apply Z.mod_pos_bound. lia. Qed.

Lemma u32_small (x : Z) : in_u32 x -> u32 x = x.
Proof. unfold in_u32. intros H. rewrite u32_mod. apply Z.mod_small. exact H. Qed.

Lemma u32_idem (x : Z) : u32 (u32 x) = u32 x.
Proof. apply u32_small, u32_range. Qed.

Lemma lane_range (k v : Z) : in_u32 (lane k v).
Proof. unfold lane. apply (u32_range (Z.shiftr v (32 * k))). Qed.

Lemma int32_t_range (x : Z) : in_int32 (int32_t x).
Proof.
  unfold int32_t, in_int32. pose proof (u32_range x) as H. unfold in_u32 in H.
  destruct (Z.ltb_spec (u32 x) (2 ^ 31)); lia.
Qed.

(** The signed reading differs from the argument by a multiple of 2^32. *)
Lemma int32_t_congr (x : Z) : exists q, int32_t x = x + q * 2 ^ 32.
Proof.
  unfold int32_t. rewrite u32_mod.
  pose proof (Z.div_mod x (2 ^ 32)) as E.
  destruct (Z.ltb_spec (x mod 2 ^ 32) (2 ^ 31)).
  - exists (- (x / 2 ^ 32)). lia.
  - exists (- (x / 2 ^ 32) - 1). lia.
Qed.

Lemma int32_t_u32 (x : Z) : int32_t (u32 x) = int32_t x.
Proof. unfold int32_t. now rewrite u32_idem. Qed.

Lemma int32_t_id (x : Z) : in_int32 x -> int32_t x = x.
Proof.
  unfold in_int32. intros H. unfold int32_t. rewrite u32_mod.
  destruct (Z.ltb_spec (x mod 2 ^ 32) (2 ^ 31)) as [L | L].
  - destruct (Z.lt_ge_cases x 0) as [N | N].
    + rewrite <- (Z.mod_unique x (2 ^ 32) (-1) (x + 2 ^ 32)) in L; lia.
    + apply Z.mod_small. lia.
  - destruct (Z.lt_ge_cases x 0) as [N | N].
    + rewrite <- (Z.mod_unique x (2 ^ 32) (-1) (x + 2 ^ 32)); lia.
    + rewrite Z.mod_small in L; lia.
Qed.

(** Two values with the same low 32 bits have the same signed reading. *)
Lemma int32_t_mod_eq (x y : Z) :
  x mod 2 ^ 32 = y mod 2 ^ 32 -> int32_t x = int32_t y.
Proof. unfold int32_t. rewrite !u32_mod. now intros ->. Qed.

End Wrapping.

(* ================================================================= *)
(** ** Reading a lane back through a store *)

Section IndexedRead.

Lemma lane_pack (k x0 x1 x2 x3 : Z) :
  0 <= k < 4 ->
  lane k (pack x0 x1 x2 x3) = u32 (nth (Z.to_nat k) [x0; x1; x2; x3] 0).
Proof.
  intros Hk.
  four_lanes k; cbn [nth].
  - apply lane_pack_0.
  - apply lane_pack_1.
  - apply lane_pack_2.
  - apply lane_pack_3.
Qed.

Lemma read32_storeu (v k : Z) :
  0 <= k < 4 -> read32 (_mm_storeu_si128 v) k = Some (lane k v).
Proof.
  intros Hk.
  four_lanes k; cbv -[byte_at Z.lor Z.shiftl lane]; f_equal.
  - apply (bytes_of_lane v 0); lia.
  - apply (bytes_of_lane v 1); lia.
  - apply (bytes_of_lane v 2); lia.
  - apply (bytes_of_lane v 3); lia.
Qed.

Lemma read32_storeu_oob (v k : Z) :
  k < 0 \/ 4 <= k -> read32 (_mm_storeu_si128 v) k = None.
Proof.
  intros Hk. unfold read32.
  destruct (Z.ltb_spec k 0) as [L | L]; [reflexivity |].
  assert (16 <= Z.to_nat (4 * k))%nat as Hn by lia.
  assert (nth_error (_mm_storeu_si128 v) (Z.to_nat (4 * k)) = None) as ->.
  { apply nth_error_None. cbn [_mm_storeu_si128 List.length map]. exact Hn. }
  reflexivity.
Qed.

Lemma Vect128i_index_lane (v k : Z) :
  0 <= k < 4 -> Vect128i.index v k = Some (int32_t (lane k v)).
Proof.
  intros Hk. unfold Vect128i.index, Vect128i.storeu.
  now rewrite read32_storeu.
Qed.

Lemma Vect128f_index_lane (v k : Z) :
  0 <= k < 4 -> Vect128f.index v k = Some (lane k v).
Proof.
  intros Hk. unfold Vect128f.index, Vect128f.storeu, _mm_storeu_ps.
  now apply read32_storeu.
Qed.

End IndexedRead.

(* ================================================================= *)
(** ** Lane-wise operations *)

Section LaneWise.

Lemma lane_map2 (f : Z -> Z -> Z) (a b k : Z) :
  0 <= k < 4 -> lane k (map2 f a b) = u32 (f (lane k a) (lane k b)).
Proof.
  intros Hk. unfold map2. rewrite lane_pack by exact Hk.
  four_lanes k; reflexivity.
Qed.

Lemma lane_broadcast (x k : Z) :
  0 <= k < 4 -> lane k (pack x x x x) = u32 x.
Proof.
  intros Hk. rewrite lane_pack by exact Hk.
  four_lanes k; reflexivity.
Qed.

Lemma lane_lxor (a b k : Z) :
  0 <= k -> lane k (Z.lxor a b) = Z.lxor (lane k a) (lane k b).
Proof.
  intros Hk. unfold lane, mask32. change 0xFFFFFFFF with (Z.ones 32).
  Z.bitblast.
Qed.

Lemma mod_eq_shift (x y q : Z) :
  x = y + q * 2 ^ 32 -> x mod 2 ^ 32 = y mod 2 ^ 32.
Proof. intros ->. apply Z_mod_plus_full. Qed.

Lemma int32_t_add (x y : Z) :
  int32_t (x + y) = int32_t (int32_t x + int32_t y).
Proof.
  apply int32_t_mod_eq.
  destruct (int32_t_congr x) as [p Hp]. destruct (int32_t_congr y) as [q Hq].
  symmetry. apply (mod_eq_shift _ _ (p + q)). lia.
Qed.

End LaneWise.

(* ================================================================= *)
(** ** Lane order of the four-argument constructors *)

(** C10: for every index [k] in 0..3, building a vector from four explicit
    values and reading lane [k] with the unchecked [operator[]] gives back
    the [(k+1)]-th constructor argument, for [Vect128i] (arguments in the
    [int32_t] range) and for [Vect128f] (arguments any binary32 pattern):
    the first argument is lane 0 and the fourth is lane 3. *)
Theorem constructor_lane_order
  (k i0 i1 i2 i3 f0 f1 f2 f3 : Z) :
  0 <= k < 4 ->
  in_int32 i0 -> in_int32 i1 -> in_int32 i2 -> in_int32 i3 ->
  in_u32 f0 -> in_u32 f1 -> in_u32 f2 -> in_u32 f3 ->
  Vect128i.index (Vect128i.of_lanes i0 i1 i2 i3) k
    = nth_error [i0; i1; i2; i3] (Z.to_nat k)
  /\ Vect128f.index (Vect128f.of_lanes f0 f1 f2 f3) k
    = nth_error [f0; f1; f2; f3] (Z.to_nat k).
Proof.
  intros Hk Hi0 Hi1 Hi2 Hi3 Hf0 Hf1 Hf2 Hf3. split.
  - rewrite Vect128i_index_lane by exact Hk.
    unfold Vect128i.of_lanes, _mm_setr_epi32.
    rewrite lane_pack by exact Hk. rewrite int32_t_u32.
    four_lanes k; cbn [nth nth_error]; f_equal; now apply int32_t_id.
  - rewrite Vect128f_index_lane by exact Hk.
    unfold Vect128f.of_lanes, _mm_setr_ps.
    rewrite lane_pack by exact Hk.
    four_lanes k; cbn [nth nth_error]; f_equal; now apply u32_small.
Qed.

(** The vectors of the [vect128i_data] and [vect128f_data] tests
    (-1, 1, 3.14f, -3.4e29f as patterns), read at lane 3. *)
Lemma constructor_lane_order_witness :
  Vect128i.index (Vect128i.of_lanes (-1) 1 2147483647 (-2147483648)) 3
    = Some (-2147483648)
  /\ Vect128f.index
       (Vect128f.of_lanes 0xBF800000 0x3F800000 0x4048F5C3 0xF0894EC0) 3
    = Some 0xF0894EC0.
Proof.
  apply (constructor_lane_order 3 (-1) 1 2147483647 (-2147483648)
           0xBF800000 0x3F800000 0x4048F5C3 0xF0894EC0);
    unfold in_int32, in_u32; lia.
Defined.

(* ================================================================= *)
(** ** Integer addition *)

(** C7: [operator+] on [Vect128i] adds lane by lane as signed 32-bit
    integers wrapping modulo 2^32: whatever the operands, lane [k] of the
    sum is read back as a value, the one value of the [int32_t] range
    congruent to [x + y] modulo 2^32, and nothing is signalled.  With
    i = (0,-1,1,2147483647) and s = (1,1,1,1), i + s = (1,0,2,-2147483648). *)
Theorem add_wraps_mod_2_32 :
  (forall (a v : Vect128i.t) (k x y : Z),
      0 <= k < 4 ->
      Vect128i.index a k = Some x ->
      Vect128i.index v k = Some y ->
      Vect128i.index (Vect128i.op_add a v) k = Some (int32_t (x + y))
      /\ in_int32 (int32_t (x + y))
      /\ (int32_t (x + y) - (x + y)) mod 2 ^ 32 = 0)
  /\ map (Vect128i.index
            (Vect128i.op_add (Vect128i.of_lanes 0 (-1) 1 2147483647)
                             (Vect128i.of_lanes 1 1 1 1)))
         [0; 1; 2; 3]
     = [Some 1; Some 0; Some 2; Some (-2147483648)].
Proof.
  split; [| vm_compute; reflexivity].
  intros a v k x y Hk Ha Hv.
  rewrite Vect128i_index_lane in Ha, Hv by exact Hk.
  injection Ha as <-. injection Hv as <-.
  split; [| split].
  - rewrite Vect128i_index_lane by exact Hk.
    unfold Vect128i.op_add, _mm_add_epi32.
    rewrite lane_map2 by exact Hk.
    now rewrite int32_t_u32, int32_t_add.
  - apply int32_t_range.
  - destruct (int32_t_congr (int32_t (lane k a) + int32_t (lane k v)))
      as [q ->].
    replace (_ + q * 2 ^ 32 - _) with (q * 2 ^ 32) by ring.
    apply Z_mod_mult.
Qed.

Lemma add_wraps_mod_2_32_witness :
  Vect128i.index
    (Vect128i.op_add (Vect128i.broadcast 2147483647) (Vect128i.broadcast 1)) 3
  = Some (int32_t (2147483647 + 1))
  /\ in_int32 (int32_t (2147483647 + 1))
  /\ (int32_t (2147483647 + 1) - (2147483647 + 1)) mod 2 ^ 32 = 0.
Proof.
  apply (proj1 add_wraps_mod_2_32
           (Vect128i.broadcast 2147483647) (Vect128i.broadcast 1)
           3 2147483647 1);
    [lia | vm_compute; reflexivity | vm_compute; reflexivity].
Defined.

(* ================================================================= *)
(** ** Integer multiplication: the two bodies of [operator*] *)

Section Multiply.

Local Ltac bits :=
  unfold lane, pack, u32, u64, mask32, mask64, mask128;
  change 0xFFFFFFFF with (Z.ones 32);
  change 0xFFFFFFFFFFFFFFFF with (Z.ones 64);
  change 0xFFFFFFFFFFFFFFFFFFFFFFFFFFFFFFFF with (Z.ones 128);
  Z.bitblast.

Lemma lane0_mul_epu32 (a b : Z) :
  lane 0 (_mm_mul_epu32 a b) = u32 (lane 0 a * lane 0 b).
Proof.
  unfold _mm_mul_epu32.
  generalize (lane 0 a * lane 0 b) (lane 2 a * lane 2 b). intros p q. bits.
Qed.

Lemma lane2_mul_epu32 (a b : Z) :
  lane 2 (_mm_mul_epu32 a b) = u32 (lane 2 a * lane 2 b).
Proof.
  unfold _mm_mul_epu32.
  generalize (lane 0 a * lane 0 b) (lane 2 a * lane 2 b). intros p q. bits.
Qed.

Lemma lane0_srli_4 (a : Z) : lane 0 (_mm_srli_si128 a 4) = lane 1 a.
Proof.
  unfold _mm_srli_si128.
  cbn [Z.ltb Z.compare Pos.compare Pos.compare_cont Z.mul Pos.mul].
  bits.
Qed.

Lemma lane2_srli_4 (a : Z) : lane 2 (_mm_srli_si128 a 4) = lane 3 a.
Proof.
  unfold _mm_srli_si128.
  cbn [Z.ltb Z.compare Pos.compare Pos.compare_cont Z.mul Pos.mul].
  bits.
Qed.

(** [_MM_SHUFFLE(0, 0, 2, 0)] selects lanes 0, 2, 0, 0. *)
Lemma shuffle_0020 (x : Z) :
  _mm_shuffle_epi32 x (_MM_SHUFFLE 0 0 2 0)
  = pack (lane 0 x) (lane 2 x) (lane 0 x) (lane 0 x).
Proof. reflexivity. Qed.

Lemma pack_ext (x0 x1 x2 x3 y0 y1 y2 y3 : Z) :
  u32 x0 = u32 y0 -> u32 x1 = u32 y1 -> u32 x2 = u32 y2 -> u32 x3 = u32 y3 ->
  pack x0 x1 x2 x3 = pack y0 y1 y2 y3.
Proof. unfold pack. now intros -> -> -> ->. Qed.

(** The unsigned and the signed product agree on their low 32 bits. *)
Lemma u32_mul_signed (x y : Z) : u32 (x * y) = u32 (int32_t x * int32_t y).
Proof.
  rewrite !u32_mod.
  destruct (int32_t_congr x) as [p Hp]. destruct (int32_t_congr y) as [q Hq].
  symmetry. apply (mod_eq_shift _ _ (p * y + q * x + p * q * 2 ^ 32)).
  rewrite Hp, Hq. ring.
Qed.

Lemma mul_fallback_lanes (a v : Z) :
  Vect128i.mul_fallback a v
  = pack (lane 0 a * lane 0 v) (lane 1 a * lane 1 v)
         (lane 2 a * lane 2 v) (lane 3 a * lane 3 v).
Proof.
  unfold Vect128i.mul_fallback. rewrite !shuffle_0020.
  unfold _mm_unpacklo_epi32.
  rewrite !lane_pack_0, !lane_pack_1, !u32_idem.
  rewrite !lane0_mul_epu32, !lane2_mul_epu32.
  rewrite !lane0_srli_4, !lane2_srli_4.
  apply pack_ext; now rewrite ?u32_idem.
Qed.

End Multiply.

(** C6: for all operands, the body of [operator*] compiled without
    [HAVE_SSE41] (two [_mm_mul_epu32] over the even and the odd lanes,
    recombined by shuffle and unpack) returns the very register the
    [_mm_mullo_epi32] body returns, and each of its lanes holds the low 32
    bits of the product of the two lanes read as signed 32-bit integers. *)
Theorem mul_fallback_matches_native :
  forall (a v : Vect128i.t),
    Vect128i.op_mul false a v = Vect128i.op_mul true a v
    /\ forall k : Z,
         0 <= k < 4 ->
         lane k (Vect128i.op_mul false a v)
         = Z.land (int32_t (lane k a) * int32_t (lane k v)) 0xFFFFFFFF.
Proof.
  intros a v.
  assert (Vect128i.op_mul false a v = Vect128i.op_mul true a v) as E.
  { cbn [Vect128i.op_mul]. rewrite mul_fallback_lanes.
    unfold Vect128i.mul_native, _mm_mullo_epi32, map2.
    apply pack_ext; apply u32_mul_signed. }
  split; [exact E |].
  intros k Hk. rewrite E. cbn [Vect128i.op_mul].
  unfold Vect128i.mul_native, _mm_mullo_epi32.
  now rewrite lane_map2 by exact Hk.
Qed.

(** Lanes (-1, 65536, -2147483648, 46341) times (-1, 65536, 3, 46341):
    lane 3 overflows to 2147488281 mod 2^32 = -2147479015. *)
Lemma mul_fallback_matches_native_witness :
  lane 3 (Vect128i.op_mul false
            (Vect128i.of_lanes (-1) 65536 (-2147483648) 46341)
            (Vect128i.of_lanes (-1) 65536 3 46341))
  = Z.land
      (int32_t (lane 3 (Vect128i.of_lanes (-1) 65536 (-2147483648) 46341))
       * int32_t (lane 3 (Vect128i.of_lanes (-1) 65536 3 46341)))
      0xFFFFFFFF.
Proof.
  apply (proj2 (mul_fallback_matches_native
                  (Vect128i.of_lanes (-1) 65536 (-2147483648) 46341)
                  (Vect128i.of_lanes (-1) 65536 3 46341)) 3).
  lia.
Defined.

(* ================================================================= *)
(** ** The binary32 codec *)

Section Codec.

Lemma testbit_b2z (b : bool) (n : Z) :
  Z.testbit (Z.b2z b) n = b && (n =? 0).
Proof.
  destruct (Z.eqb_spec n 0) as [-> | N].
  - now rewrite Z.b2z_bit0, andb_true_r.
  - rewrite andb_false_r. destruct b; cbn [Z.b2z].
    + destruct n as [| p | p]; [congruence | now destruct p | reflexivity].
    + apply Z.testbit_0_l.
Qed.

(** A 32-bit pattern is the juxtaposition of its three fields. *)
Lemma fields_of_pattern (x : Z) :
  in_u32 x ->
  Z.lor (Z.shiftl (Z.b2z (Float32.sign_of x)) 31)
    (Z.lor (Z.shiftl (Float32.expo_of x) 23) (Float32.frac_of x)) = x.
Proof.
  intros Hx. rewrite <- (u32_small x Hx) at 4.
  unfold Float32.sign_of, Float32.expo_of, Float32.frac_of, u32, mask32.
  change 0xFF with (Z.ones 8). change 0x7FFFFF with (Z.ones 23).
  change 0xFFFFFFFF with (Z.ones 32).
  Z.bitblast; rewrite testbit_b2z; subst;
    destruct (Z.eqb_spec (l1 - 31) 0) as [E | E];
    try (exfalso; lia);
    try (replace l1 with 31 by lia);
    rewrite ?andb_true_r, ?andb_false_r, ?orb_false_r, ?orb_false_l;
    reflexivity.
Qed.

Lemma frac_of_range (x : Z) : 0 <= Float32.frac_of x < 0x800000.
Proof.
  unfold Float32.frac_of. change 0x7FFFFF with (Z.ones 23).
  rewrite Z.land_ones by lia. apply Z.mod_pos_bound. lia.
Qed.

Lemma sign_pattern (s : bool) :
  (if s then 0x80000000 else 0) = Z.shiftl (Z.b2z s) 31.
Proof. now destruct s. Qed.

(** Every pattern that is not a NaN is the encoding of the value it
    denotes. *)
Lemma encode_decode (x : Z) :
  in_u32 x -> Float32.isnan x = false ->
  Float32.encode (Float32.decode x) = x.
Proof.
  intros Hx N. pose proof (fields_of_pattern x Hx) as F.
  pose proof (frac_of_range x) as Hm.
  unfold Float32.isnan in N. unfold Float32.decode in *.
  set (s := Float32.sign_of x) in *.
  set (e := Float32.expo_of x) in *.
  set (m := Float32.frac_of x) in *.
  destruct (Z.eqb_spec e 0) as [E0 | E0].
  - rewrite E0 in F. change (Z.shiftl 0 23) with 0 in F. rewrite Z.lor_0_l in F.
    destruct m as [| p | p] eqn:M; cbn [Float32.encode];
      rewrite ?sign_pattern.
    + now rewrite Z.lor_0_r in F.
    + destruct (Z.ltb_spec (Z.pos p) 0x800000); [exact F | lia].
    + lia.
  - destruct (Z.eqb_spec e 255) as [E1 | E1].
    + rewrite E1 in F.
      destruct m as [| p | p] eqn:M; cbn [Float32.encode];
        rewrite ?sign_pattern.
      * exact F.
      * discriminate N.
      * lia.
    + destruct (m + 0x800000) as [| p | p] eqn:M; try lia.
      cbn [Float32.encode]. rewrite sign_pattern.
      destruct (Z.ltb_spec (Z.pos p) 0x800000); [lia |].
      replace (e - 150 + 150) with e by ring.
      replace (Z.pos p - 0x800000) with m by lia.
      exact F.
Qed.

End Codec.

(* ================================================================= *)
(** ** binary32 patterns of the constants used below *)

Example decode_one :
  Float32.decode 0x3F800000 = S754_finite false 0x800000 (-23).
Proof. reflexivity. Qed.

Example decode_all_ones : Float32.decode 0xFFFFFFFF = S754_nan.
Proof. reflexivity. Qed.

Example decode_smallest_subnormal :
  Float32.decode 0x00000001 = S754_finite false 1 (-149).
Proof. reflexivity. Qed.

Example decode_neg_infinity :
  Float32.decode 0xFF800000 = S754_infinity true.
Proof. reflexivity. Qed.

(** Integer literals converted to [float]: 2147483647 rounds up to 2^31
    and 4294967295 rounds up to 2^32. *)
Example of_Z_constants :
  map Float32.of_Z [0; 1; -1; 2147483647; 0xFFFFFFFF]
  = [0x00000000; 0x3F800000; 0xBF800000; 0x4F000000; 0x4F800000].
Proof. vm_compute. reflexivity. Qed.

(** 1.203f is the binary32 nearest to 1203/1000. *)
Example pattern_of_1_203 :
  Float32.encode
    (SFdiv Float32.prec Float32.emax
       (binary_normalize Float32.prec Float32.emax 1203 0 false)
       (binary_normalize Float32.prec Float32.emax 1000 0 false))
  = 0x3F99FBE7.
Proof. vm_compute. reflexivity. Qed.

(* ================================================================= *)
(** ** binary32 comparisons *)

Section FloatCompare.

Lemma SFcompare_refl (f : spec_float) :
  f <> S754_nan -> SFcompare f f = Some Eq.
Proof.
  destruct f as [s | s | | s m e]; intros H; cbn.
  - reflexivity.
  - now destruct s.
  - now contradiction H.
  - rewrite Z.compare_refl.
    change (Pos.compare_cont Eq m m) with (Pos.compare m m).
    rewrite Pos.compare_refl. now destruct s.
Qed.

Lemma SFcompare_antisym (f g : spec_float) :
  SFcompare g f = option_map CompOpp (SFcompare f g).
Proof.
  destruct f as [s | s | | s m e], g as [s' | s' | | s' m' e']; cbn;
    try reflexivity;
    try (destruct s; reflexivity);
    try (destruct s'; reflexivity);
    try (destruct s, s'; reflexivity).
  f_equal.
  change (Pos.compare_cont Eq m' m) with (Pos.compare m' m).
  change (Pos.compare_cont Eq m m') with (Pos.compare m m').
  rewrite (Z.compare_antisym e e'), (Pos.compare_antisym m m').
  destruct s, s'; try reflexivity;
    destruct (e ?= e'); cbn; try reflexivity;
    now rewrite ?CompOpp_involutive.
Qed.

Lemma isnan_decode (x : Z) :
  Float32.isnan x = true <-> Float32.decode x = S754_nan.
Proof.
  unfold Float32.isnan. destruct (Float32.decode x); split; congruence.
Qed.

Lemma isnan_false_decode (x : Z) :
  Float32.isnan x = false <-> Float32.decode x <> S754_nan.
Proof.
  unfold Float32.isnan. destruct (Float32.decode x); split; congruence.
Qed.

(** A value that is not NaN is equal to itself; NaN is not. *)
Lemma float_eqb_refl (x : Z) : Float32.eqb x x = negb (Float32.isnan x).
Proof.
  unfold Float32.eqb, SFeqb.
  destruct (Float32.isnan x) eqn:N.
  - apply isnan_decode in N. now rewrite N.
  - apply isnan_false_decode in N. now rewrite SFcompare_refl.
Qed.

Lemma SFcompare_nan_l (g : spec_float) : SFcompare S754_nan g = None.
Proof. reflexivity. Qed.

Lemma SFcompare_nan_r (f : spec_float) : SFcompare f S754_nan = None.
Proof. now destruct f. Qed.

Lemma SFcompare_ordered (f g : spec_float) :
  f <> S754_nan -> g <> S754_nan -> exists c, SFcompare f g = Some c.
Proof.
  destruct f, g; intros Hf Hg; try contradiction; cbn; eauto.
Qed.

(** Any comparison with a NaN operand is unordered. *)
Lemma float_unordered (x y : Z) :
  Float32.isnan x = true \/ Float32.isnan y = true ->
  Float32.ltb x y = false /\ Float32.gtb x y = false
  /\ Float32.leb x y = false /\ Float32.geb x y = false
  /\ Float32.eqb x y = false.
Proof.
  unfold Float32.gtb, Float32.geb, Float32.ltb, Float32.leb, Float32.eqb,
    SFltb, SFleb, SFeqb.
  intros [N | N]; apply isnan_decode in N; rewrite N;
    rewrite ?SFcompare_nan_l, ?SFcompare_nan_r; repeat split; reflexivity.
Qed.

(** On ordered operands "not greater" is "less or equal" and "not less"
    is "greater or equal". *)
Lemma float_ordered_negations (x y : Z) :
  Float32.isnan x = false -> Float32.isnan y = false ->
  negb (Float32.gtb x y) = Float32.leb x y
  /\ negb (Float32.ltb x y) = Float32.geb x y.
Proof.
  intros Nx Ny. apply isnan_false_decode in Nx, Ny.
  unfold Float32.gtb, Float32.geb, Float32.ltb, Float32.leb, SFltb, SFleb.
  rewrite (SFcompare_antisym (Float32.decode x) (Float32.decode y)).
  destruct (SFcompare_ordered _ _ Nx Ny) as [c ->].
  now destruct c.
Qed.

Lemma all_ones_if_small (b : bool) : u32 (all_ones_if b) = all_ones_if b.
Proof. now destruct b. Qed.

Lemma lane_compare (p : Z -> Z -> bool) (a v k : Z) :
  0 <= k < 4 ->
  lane k (map2 (fun x y => all_ones_if (p x y)) a v)
  = all_ones_if (p (lane k a) (lane k v)).
Proof.
  intros Hk. rewrite lane_map2 by exact Hk. apply all_ones_if_small.
Qed.

End FloatCompare.

(* ================================================================= *)
(** ** Comparison masks *)

(** C1: whatever the operands, lane [k] of an integer comparison
    ([<], [>], [==]) reads back as [-1] when the signed comparison of the
    two lanes holds and as [0] when it does not; lane [k] of a float
    comparison is the all-ones pattern, which is a NaN, when the lane
    predicate of the instruction holds and the pattern of [+0.0] when it
    does not.  With float lanes i = (0, 1, -1, 2147483647.0) and
    s = (0, 0, 0, 1), lane 3 of [i > s] is NaN and lane 0 is [0.0]. *)
Theorem comparison_mask_encoding :
  (forall (a v : Vect128i.t) (k x y : Z),
      0 <= k < 4 ->
      Vect128i.index a k = Some x ->
      Vect128i.index v k = Some y ->
      Vect128i.index (Vect128i.op_lt a v) k = Some (if x <? y then -1 else 0)
      /\ Vect128i.index (Vect128i.op_gt a v) k = Some (if x >? y then -1 else 0)
      /\ Vect128i.index (Vect128i.op_eq a v) k = Some (if x =? y then -1 else 0))
  /\ (forall (a v : Vect128f.t) (k x y : Z),
      0 <= k < 4 ->
      Vect128f.index a k = Some x ->
      Vect128f.index v k = Some y ->
      Forall
        (fun c : (Vect128f.t -> Vect128f.t -> Vect128f.t) * (Z -> Z -> bool) =>
           exists r,
             Vect128f.index (fst c a v) k = Some r
             /\ if snd c x y
                then r = 0xFFFFFFFF /\ Float32.isnan r = true
                else r = 0 /\ Float32.decode r = S754_zero false)
        [ (Vect128f.op_lt, Float32.ltb);
          (Vect128f.op_gt, Float32.gtb);
          (Vect128f.op_eq, Float32.eqb);
          (Vect128f.op_le, fun x y => negb (Float32.gtb x y));
          (Vect128f.op_ge, fun x y => negb (Float32.ltb x y));
          (Vect128f.op_ne, fun x y => negb (Float32.eqb x y)) ])
  /\ (let i := Vect128f.of_lanes (Float32.of_Z 0) (Float32.of_Z 1)
                 (Float32.of_Z (-1)) (Float32.of_Z 2147483647) in
      let s := Vect128f.of_lanes (Float32.of_Z 0) (Float32.of_Z 0)
                 (Float32.of_Z 0) (Float32.of_Z 1) in
      option_map Float32.isnan (Vect128f.index (Vect128f.op_gt i s) 3)
        = Some true
      /\ Vect128f.index (Vect128f.op_gt i s) 0 = Some Float32.pos_zero).
Proof.
  split; [| split].
  - intros a v k x y Hk Ha Hv.
    rewrite Vect128i_index_lane in Ha, Hv by exact Hk.
    injection Ha as <-. injection Hv as <-.
    rewrite !Vect128i_index_lane by exact Hk.
    unfold Vect128i.op_lt, Vect128i.op_gt, Vect128i.op_eq,
      _mm_cmplt_epi32, _mm_cmpgt_epi32, _mm_cmpeq_epi32.
    rewrite !lane_compare by exact Hk.
    repeat split; f_equal;
      match goal with |- context [all_ones_if ?b] => now destruct b end.
  - intros a v k x y Hk Ha Hv.
    rewrite Vect128f_index_lane in Ha, Hv by exact Hk.
    injection Ha as <-. injection Hv as <-.
    repeat constructor; cbn [fst snd];
      rewrite Vect128f_index_lane by exact Hk;
      unfold Vect128f.op_lt, Vect128f.op_gt, Vect128f.op_eq, Vect128f.op_le,
        Vect128f.op_ge, Vect128f.op_ne, _mm_cmplt_ps, _mm_cmpgt_ps,
        _mm_cmpeq_ps, _mm_cmpngt_ps, _mm_cmpnlt_ps, _mm_cmpneq_ps;
      rewrite lane_compare by exact Hk;
      match goal with
      | |- context [all_ones_if ?b] =>
          exists (all_ones_if b); split; [reflexivity |];
          destruct b; split; reflexivity
      end.
  - vm_compute. split; reflexivity.
Qed.

(** Lane 1 of (0, 1, -1, 2147483647) against zero, as in the integer
    operator tests. *)
Lemma comparison_mask_encoding_witness :
  Vect128i.index
    (Vect128i.op_lt (Vect128i.of_lanes 0 1 (-1) 2147483647)
                    (Vect128i.broadcast 0)) 2 = Some (if -1 <? 0 then -1 else 0)
  /\ Vect128i.index
       (Vect128i.op_gt (Vect128i.of_lanes 0 1 (-1) 2147483647)
                       (Vect128i.broadcast 0)) 2 = Some (if -1 >? 0 then -1 else 0)
  /\ Vect128i.index
       (Vect128i.op_eq (Vect128i.of_lanes 0 1 (-1) 2147483647)
                       (Vect128i.broadcast 0)) 2 = Some (if -1 =? 0 then -1 else 0).
Proof.
  apply (proj1 comparison_mask_encoding
           (Vect128i.of_lanes 0 1 (-1) 2147483647) (Vect128i.broadcast 0)
           2 (-1) 0);
    [lia | vm_compute; reflexivity | vm_compute; reflexivity].
Defined.

(* ================================================================= *)
(** ** Float [<=] and [>=] *)

(** C5: lane [k] of [a <= v] on [Vect128f] is all-ones exactly when
    [a[k] > v[k]] does not hold, and lane [k] of [a >= v] exactly when
    [a[k] < v[k]] does not hold.  A NaN operand therefore gives a true
    lane in both, whereas the ordered IEEE less-or-equal and
    greater-or-equal are false there; on operands that are not NaN the
    two readings agree. *)
Theorem float_le_ge_negated_compare
  (a v : Vect128f.t) (k x y : Z) :
  0 <= k < 4 ->
  Vect128f.index a k = Some x ->
  Vect128f.index v k = Some y ->
  Vect128f.index (Vect128f.op_le a v) k
    = Some (if Float32.gtb x y then 0 else 0xFFFFFFFF)
  /\ Vect128f.index (Vect128f.op_ge a v) k
    = Some (if Float32.ltb x y then 0 else 0xFFFFFFFF)
  /\ (Float32.isnan x = true \/ Float32.isnan y = true ->
      Vect128f.index (Vect128f.op_le a v) k = Some 0xFFFFFFFF
      /\ Vect128f.index (Vect128f.op_ge a v) k = Some 0xFFFFFFFF
      /\ Float32.leb x y = false
      /\ Float32.geb x y = false)
  /\ (Float32.isnan x = false -> Float32.isnan y = false ->
      Vect128f.index (Vect128f.op_le a v) k
        = Some (if Float32.leb x y then 0xFFFFFFFF else 0)
      /\ Vect128f.index (Vect128f.op_ge a v) k
        = Some (if Float32.geb x y then 0xFFFFFFFF else 0)).
Proof.
  intros Hk Ha Hv.
  rewrite Vect128f_index_lane in Ha, Hv by exact Hk.
  injection Ha as <-. injection Hv as <-.
  rewrite !Vect128f_index_lane by exact Hk.
  unfold Vect128f.op_le, Vect128f.op_ge, _mm_cmpngt_ps, _mm_cmpnlt_ps.
  rewrite !lane_compare by exact Hk.
  split; [| split; [| split]].
  - now destruct (Float32.gtb _ _).
  - now destruct (Float32.ltb _ _).
  - intros N. destruct (float_unordered _ _ N) as (L & G & LE & GE & _).
    rewrite L, G. repeat split; assumption.
  - intros Nx Ny. destruct (float_ordered_negations _ _ Nx Ny) as [<- <-].
    split; reflexivity.
Qed.

(** The quiet NaN 0x7FC00000 against 1.0f in lane 0. *)
Lemma float_le_ge_negated_compare_witness :
  Vect128f.index
    (Vect128f.op_le (Vect128f.broadcast 0x7FC00000)
                    (Vect128f.broadcast 0x3F800000)) 0 = Some 0xFFFFFFFF
  /\ Vect128f.index
       (Vect128f.op_ge (Vect128f.broadcast 0x7FC00000)
                       (Vect128f.broadcast 0x3F800000)) 0 = Some 0xFFFFFFFF
  /\ Float32.leb 0x7FC00000 0x3F800000 = false
  /\ Float32.geb 0x7FC00000 0x3F800000 = false.
Proof.
  refine (proj1 (proj2 (proj2
            (float_le_ge_negated_compare
               (Vect128f.broadcast 0x7FC00000) (Vect128f.broadcast 0x3F800000)
               0 0x7FC00000 0x3F800000 _ _ _))) _);
    [lia | vm_compute; reflexivity | vm_compute; reflexivity
    | left; vm_compute; reflexivity].
Defined.

(* ================================================================= *)
(** ** Float NOT *)

Section FloatNot.

Lemma lxor_cancel_r (x k : Z) : Z.lxor (Z.lxor x k) k = x.
Proof. now rewrite Z.lxor_assoc, Z.lxor_nilpotent, Z.lxor_0_r. Qed.

Lemma lxor_inj_l (x a b : Z) : Z.lxor x a = Z.lxor x b -> a = b.
Proof.
  intros E. apply (f_equal (Z.lxor x)) in E.
  now rewrite <- !Z.lxor_assoc, Z.lxor_nilpotent, !Z.lxor_0_l in E.
Qed.

Lemma Vect128f_not_lane (v k : Z) :
  0 <= k < 4 ->
  lane k (Vect128f.op_not v) = Z.lxor (lane k v) 0x4F800000.
Proof.
  intros Hk. unfold Vect128f.op_not, Vect128f.op_xor, _mm_xor_ps.
  rewrite lane_lxor by lia. f_equal.
  unfold Vect128f.broadcast, _mm_set1_ps.
  now rewrite lane_broadcast by exact Hk.
Qed.

Lemma Vect128i_not_lane (v k : Z) :
  0 <= k < 4 ->
  lane k (Vect128i.op_not v) = Z.lxor (lane k v) 0xFFFFFFFF.
Proof.
  intros Hk. unfold Vect128i.op_not, Vect128i.op_xor, _mm_xor_si128.
  rewrite lane_lxor by lia. f_equal.
  unfold Vect128i.broadcast, _mm_set1_epi32.
  now rewrite lane_broadcast by exact Hk.
Qed.

Lemma Vect128f_not_not (v : Vect128f.t) :
  Vect128f.op_not (Vect128f.op_not v) = v.
Proof.
  unfold Vect128f.op_not, Vect128f.op_xor, _mm_xor_ps. apply lxor_cancel_r.
Qed.

(** Comparing a vector with itself: a lane is unequal to itself exactly
    when it holds a NaN. *)
Lemma Vect128f_self_compare (v : Vect128f.t) (k x : Z) :
  0 <= k < 4 ->
  Vect128f.index v k = Some x ->
  Vect128f.index (Vect128f.op_ne v v) k
    = Some (if Float32.isnan x then 0xFFFFFFFF else 0)
  /\ Vect128f.index (Vect128f.op_eq v v) k
    = Some (if Float32.isnan x then 0 else 0xFFFFFFFF).
Proof.
  intros Hk Hv.
  rewrite Vect128f_index_lane in Hv by exact Hk. injection Hv as <-.
  rewrite !Vect128f_index_lane by exact Hk.
  unfold Vect128f.op_ne, Vect128f.op_eq, _mm_cmpneq_ps, _mm_cmpeq_ps.
  rewrite !lane_compare by exact Hk. rewrite float_eqb_refl.
  now destruct (Float32.isnan (lane k v)).
Qed.

End FloatNot.

(** C2, as the code has it: in [Vect128f::operator~] the literal
    [0xFFFFFFFF] reaches [Vect128f(float)] and is converted to the float
    4294967296.0f, whose pattern is [0x4F800000].  Lane [k] of [~v] is
    therefore the lane of [v] with only bits 23..27 and 30 flipped, never
    its bitwise complement, unlike [Vect128i::operator~], which flips all
    32 bits.  For v = 1.203f the result lane is [0x7019FBE7], whereas the
    complement of [0x3F99FBE7] is [0xC0660418]. *)
Theorem float_not_xors_converted_literal :
  Float32.of_Z 0xFFFFFFFF = 0x4F800000
  /\ (forall (v : Vect128f.t) (k x : Z),
        0 <= k < 4 ->
        Vect128f.index v k = Some x ->
        Vect128f.index (Vect128f.op_not v) k = Some (Z.lxor x 0x4F800000)
        /\ Z.lxor x 0x4F800000 <> Z.lxor x 0xFFFFFFFF)
  /\ (forall (v : Vect128i.t) (k : Z),
        0 <= k < 4 ->
        lane k (Vect128i.op_not v) = Z.lxor (lane k v) 0xFFFFFFFF)
  /\ Vect128f.index (Vect128f.op_not (Vect128f.broadcast 0x3F99FBE7)) 0
     = Some 0x7019FBE7
  /\ Z.lxor 0x3F99FBE7 0xFFFFFFFF = 0xC0660418.
Proof.
  split; [vm_compute; reflexivity |].
  split; [| split; [| split; vm_compute; reflexivity]].
  - intros v k x Hk Hv.
    rewrite Vect128f_index_lane in Hv by exact Hk. injection Hv as <-.
    split.
    + rewrite Vect128f_index_lane by exact Hk.
      now rewrite Vect128f_not_lane by exact Hk.
    + intros E. apply lxor_inj_l in E. discriminate E.
  - intros v k Hk. now apply Vect128i_not_lane.
Qed.

Lemma float_not_xors_converted_literal_witness :
  Vect128f.index (Vect128f.op_not (Vect128f.broadcast 0)) 2
    = Some (Z.lxor 0 0x4F800000)
  /\ Z.lxor 0 0x4F800000 <> Z.lxor 0 0xFFFFFFFF.
Proof.
  apply (proj1 (proj2 float_not_xors_converted_literal)
           (Vect128f.broadcast 0) 2 0);
    [lia | vm_compute; reflexivity].
Defined.

(** C9, refuted as stated: no float vector is changed by two applications
    of NOT; no lane holding a value other than NaN makes [~~v != v] true;
    and for the value 1.203f of the operator test every lane of
    [~~v != v] is [0.0] while every lane of [~~v == v] is NaN. *)
Lemma float_not_twice_counterexample :
  ~ (exists v : Vect128f.t, Vect128f.op_not (Vect128f.op_not v) <> v)
  /\ ~ (exists (v : Vect128f.t) (k x : Z),
          0 <= k < 4
          /\ Vect128f.index v k = Some x
          /\ Float32.isnan x = false
          /\ Vect128f.index
               (Vect128f.op_ne (Vect128f.op_not (Vect128f.op_not v)) v) k
             <> Some 0)
  /\ (let v := Vect128f.broadcast 0x3F99FBE7 in
      let w := Vect128f.op_not (Vect128f.op_not v) in
      map (Vect128f.index (Vect128f.op_ne w v)) [0; 1; 2; 3]
        = [Some 0; Some 0; Some 0; Some 0]
      /\ map (fun k => option_map Float32.isnan
                         (Vect128f.index (Vect128f.op_eq w v) k)) [0; 1; 2; 3]
        = [Some true; Some true; Some true; Some true]).
Proof.
  split; [| split].
  - intros [v H]. apply H, Vect128f_not_not.
  - intros (v & k & x & Hk & Hv & N & H). apply H.
    rewrite Vect128f_not_not.
    destruct (Vect128f_self_compare v k x Hk Hv) as [-> _]. now rewrite N.
  - vm_compute. split; reflexivity.
Qed.

(** C9, amended: applying NOT twice to a float vector returns the vector
    itself, bit for bit.  Lane [k] of [~~v != v] is therefore true (NaN)
    exactly when lane [k] of [v] is itself a NaN, and lane [k] of
    [~~v == v] is true for every other value. *)
Theorem float_not_twice_identity (v : Vect128f.t) :
  Vect128f.op_not (Vect128f.op_not v) = v
  /\ forall k x : Z,
       0 <= k < 4 ->
       Vect128f.index v k = Some x ->
       Vect128f.index
         (Vect128f.op_ne (Vect128f.op_not (Vect128f.op_not v)) v) k
         = Some (if Float32.isnan x then 0xFFFFFFFF else 0)
       /\ Vect128f.index
            (Vect128f.op_eq (Vect128f.op_not (Vect128f.op_not v)) v) k
          = Some (if Float32.isnan x then 0 else 0xFFFFFFFF).
Proof.
  split; [apply Vect128f_not_not |].
  intros k x Hk Hv. rewrite Vect128f_not_not.
  now apply Vect128f_self_compare.
Qed.

Lemma float_not_twice_identity_witness :
  Vect128f.index
    (Vect128f.op_ne
       (Vect128f.op_not (Vect128f.op_not (Vect128f.broadcast 0x3F99FBE7)))
       (Vect128f.broadcast 0x3F99FBE7)) 0
    = Some (if Float32.isnan 0x3F99FBE7 then 0xFFFFFFFF else 0)
  /\ Vect128f.index
       (Vect128f.op_eq
          (Vect128f.op_not (Vect128f.op_not (Vect128f.broadcast 0x3F99FBE7)))
          (Vect128f.broadcast 0x3F99FBE7)) 0
     = Some (if Float32.isnan 0x3F99FBE7 then 0 else 0xFFFFFFFF).
Proof.
  apply (proj2 (float_not_twice_identity (Vect128f.broadcast 0x3F99FBE7))
           0 0x3F99FBE7);
    [lia | vm_compute; reflexivity].
Defined.

(* ================================================================= *)
(** ** AlignedStorage: the aligned pointer *)

Section Alignment.

Import AlignedStorage.

Lemma size_t_small (x : Z) : 0 <= x < 2 ^ 64 -> size_t x = x.
Proof. intros H. unfold size_t. now apply Z.mod_small. Qed.

Lemma uintptr_t_small (x : Z) : 0 <= x < 2 ^ 64 -> uintptr_t x = x.
Proof. intros H. unfold uintptr_t. now apply Z.mod_small. Qed.

(** Without wrap-around the constructor adds [Align - raw % Align]. *)
Lemma ctor_aligned (Align len raw : Z) :
  0 < Align < 2 ^ 31 -> 0 <= raw -> raw + Align < 2 ^ 64 ->
  aligned (ctor Align len raw) = raw + (Align - raw mod Align).
Proof.
  intros HA Hr Hfit. cbn [ctor aligned].
  pose proof (Z.mod_pos_bound raw Align (proj1 HA)) as Hm.
  rewrite (uintptr_t_small raw) by lia.
  rewrite (size_t_small Align) by lia.
  rewrite (size_t_small (Align - raw mod Align)) by lia.
  apply uintptr_t_small. lia.
Qed.

Lemma offset_is_aligned (Align raw : Z) :
  0 < Align -> (raw + (Align - raw mod Align)) mod Align = 0.
Proof.
  intros HA.
  replace (raw + (Align - raw mod Align))
    with (raw - raw mod Align + 1 * Align) by ring.
  rewrite Z_mod_plus_full, Zminus_mod_idemp_r, Z.sub_diag.
  now apply Z.mod_0_l, Z.neq_sym, Z.lt_neq.
Qed.

(** No positive offset below [Align - raw % Align] reaches a multiple. *)
Lemma offset_is_least_positive (Align raw d : Z) :
  0 < Align -> 0 < d -> (raw + d) mod Align = 0 ->
  Align - raw mod Align <= d.
Proof.
  intros HA Hd Hz.
  pose proof (Z.mod_pos_bound raw Align HA) as Hm.
  destruct (Z.le_gt_cases (Align - raw mod Align) d) as [L | G]; [exact L |].
  exfalso.
  assert (raw + d = raw mod Align + d + raw / Align * Align) as E.
  { rewrite (Z.div_mod raw Align) at 1 by lia. ring. }
  rewrite E, Z_mod_plus_full, Z.mod_small in Hz; lia.
Qed.

End Alignment.

(** C3, refuted as stated: with [Align = 16] and a block that starts at
    the already aligned address 4096, the aligned pointer is 4112; it is
    not [4096 + d] for any [d] with [0 <= d < 16]. *)
Lemma aligned_offset_counterexample :
  4096 mod 16 = 0
  /\ AlignedStorage.aligned (AlignedStorage.ctor 16 4 4096) = 4112
  /\ ~ (exists d : Z,
          0 <= d < 16
          /\ AlignedStorage.aligned (AlignedStorage.ctor 16 4 4096) = 4096 + d).
Proof.
  assert (AlignedStorage.aligned (AlignedStorage.ctor 16 4 4096) = 4112) as A
    by (vm_compute; reflexivity).
  split; [reflexivity |]. split; [exact A |].
  intros [d [Hd E]]. rewrite A in E. lia.
Qed.

(** C3, amended: for a raw pointer [p] whose block leaves [Align] bytes
    inside the address space, the constructor sets the aligned pointer to
    [p + d] with [d = Align - p % Align]; [d] is the smallest strictly
    positive offset with [(p + d) % Align == 0], so [0 < d <= Align], and
    when [p] is already a multiple of [Align] the aligned pointer is
    [p + Align]. *)
Theorem aligned_offset (Align len p : Z) :
  0 < Align < 2 ^ 31 ->
  0 <= p ->
  p + Align < 2 ^ 64 ->
  let d := Align - p mod Align in
  AlignedStorage.aligned (AlignedStorage.ctor Align len p) = p + d
  /\ 0 < d <= Align
  /\ (p + d) mod Align = 0
  /\ (forall d' : Z, 0 < d' -> (p + d') mod Align = 0 -> d <= d')
  /\ (p mod Align = 0 ->
      AlignedStorage.aligned (AlignedStorage.ctor Align len p) = p + Align).
Proof.
  intros HA Hp Hfit d. subst d.
  pose proof (Z.mod_pos_bound p Align (proj1 HA)) as Hm.
  pose proof (ctor_aligned Align len p HA Hp Hfit) as E.
  split; [exact E |]. split; [lia |].
  split; [apply offset_is_aligned; lia |].
  split.
  - intros d' Hd' Hz. apply offset_is_least_positive; [lia | exact Hd' | exact Hz].
  - intros Hz. rewrite E, Hz. ring.
Qed.

(** [AlignedStorage<float, 128>] of 256 elements on a block that starts at
    the aligned address 0x1000. *)
Lemma aligned_offset_witness :
  let d := 128 - 0x1000 mod 128 in
  AlignedStorage.aligned (AlignedStorage.ctor 128 256 0x1000) = 0x1000 + d
  /\ 0 < d <= 128
  /\ (0x1000 + d) mod 128 = 0
  /\ (forall d' : Z, 0 < d' -> (0x1000 + d') mod 128 = 0 -> d <= d')
  /\ (0x1000 mod 128 = 0 ->
      AlignedStorage.aligned (AlignedStorage.ctor 128 256 0x1000)
      = 0x1000 + 128).
Proof.
  apply (aligned_offset 128 256 0x1000); lia.
Defined.




(* ================================================================= *)
(** ** AlignedStorage: checked access *)

Section BoundsCheck.

Import AlignedStorage.

Variable sizeofT : Z.

(** The guard of [at], for an index that is an [int]. *)
Lemma at_guard (s : t) (i : Z) :
  in_int32 i ->
  (i <? 0) || (size_t i >=? length s) = true <-> i < 0 \/ i >= length s.
Proof.
  unfold in_int32. intros Hi. rewrite orb_true_iff, Z.ltb_lt, Z.geb_leb, Z.leb_le.
  destruct (Z.lt_ge_cases i 0) as [N | P].
  - split; intros _; left; exact N.
  - rewrite (size_t_small i) by lia. lia.
Qed.

Lemma at_throw (s : t) (i : Z) (h : heap) :
  (i <? 0) || (size_t i >=? length s) = true ->
  at_ sizeofT s i h
  = (Throw (out_of_range "outside of aligned storage boundary"), h).
Proof. intros G. unfold at_. now rewrite G. Qed.

Lemma at_return (s : t) (i : Z) (h : heap) :
  (i <? 0) || (size_t i >=? length s) = false ->
  at_ sizeofT s i h = (Return (aligned s + i * sizeofT), h).
Proof. intros G. unfold at_. now rewrite G. Qed.

(** Among the public methods only [at] has a throwing path. *)
Lemma only_at_throws (m : method) (s : t) (h h' : heap) (e : exn) :
  call sizeofT m s h = (Throw e, h') ->
  exists j, m = At j /\ (j <? 0) || (size_t j >=? length s) = true /\ h' = h.
Proof.
  destruct m as [ | | j | j | j | j]; cbn; try discriminate.
  unfold call, bind, at_.
  destruct ((j <? 0) || (size_t j >=? length s)) eqn:G; cbn.
  - intros E. injection E as _ <-. now exists j.
  - discriminate.
Qed.

End BoundsCheck.

(** C8: for an [int] index [i], [at(i)] throws [std::out_of_range] if and
    only if [i < 0] or [i >= length]; otherwise it returns the reference
    [aligned[i]], the very one the unchecked [operator[]] yields, and in
    both cases memory is left as it was.  No other public method of the
    class has a throwing path (the vector classes are embedded as total
    functions: none of their methods throws). *)
Theorem at_bounds_checked
  (sizeofT : Z) (s : AlignedStorage.t) (i : Z) (h : AlignedStorage.heap) :
  in_int32 i ->
  ((exists e, AlignedStorage.at_ sizeofT s i h = (AlignedStorage.Throw e, h))
   <-> i < 0 \/ i >= AlignedStorage.length s)
  /\ (AlignedStorage.at_ sizeofT s i h
        = (AlignedStorage.Return (AlignedStorage.aligned s + i * sizeofT), h)
      <-> 0 <= i < AlignedStorage.length s)
  /\ AlignedStorage.op_index sizeofT s i h
       = (AlignedStorage.Return (AlignedStorage.aligned s + i * sizeofT), h)
  /\ (forall (m : AlignedStorage.method) (e : AlignedStorage.exn)
             (h' : AlignedStorage.heap),
        AlignedStorage.call sizeofT m s h = (AlignedStorage.Throw e, h') ->
        exists j, m = AlignedStorage.At j).
Proof.
  intros Hi. pose proof (at_guard s i Hi) as G.
  destruct ((i <? 0) || (size_t i >=? AlignedStorage.length s)) eqn:D.
  - pose proof (at_throw sizeofT s i h D) as E.
    split; [| split; [| split]].
    + split; [intros _; now apply G | intros _; eexists; exact E].
    + split; [rewrite E; discriminate |].
      intros B. assert (i < 0 \/ i >= AlignedStorage.length s) by now apply G.
      lia.
    + reflexivity.
    + intros m e h' C.
      destruct (only_at_throws sizeofT m s h h' e C) as (j & -> & _).
      now exists j.
  - pose proof (at_return sizeofT s i h D) as E.
    assert (~ (i < 0 \/ i >= AlignedStorage.length s)) as NB
      by (rewrite <- G; discriminate).
    split; [| split; [| split]].
    + split; [intros [e T]; rewrite E in T; discriminate T | intros B; now elim NB].
    + split; [intros _; lia | intros _; exact E].
    + reflexivity.
    + intros m e h' C.
      destruct (only_at_throws sizeofT m s h h' e C) as (j & -> & _).
      now exists j.
Qed.

(** A storage of four elements: [at(4)] throws, [at(3)] does not. *)
Lemma at_bounds_checked_witness :
  ((exists e,
       AlignedStorage.at_ 4 (AlignedStorage.ctor 16 4 0x1008) 4 (fun _ => 0)
       = (AlignedStorage.Throw e, fun _ => 0))
   <-> 4 < 0 \/ 4 >= AlignedStorage.length (AlignedStorage.ctor 16 4 0x1008))
  /\ (AlignedStorage.at_ 4 (AlignedStorage.ctor 16 4 0x1008) 3 (fun _ => 0)
        = (AlignedStorage.Return
             (AlignedStorage.aligned (AlignedStorage.ctor 16 4 0x1008) + 3 * 4),
           fun _ => 0)
      <-> 0 <= 3 < AlignedStorage.length (AlignedStorage.ctor 16 4 0x1008)).
Proof.
  split.
  - apply (at_bounds_checked 4 (AlignedStorage.ctor 16 4 0x1008) 4
             (fun _ => 0)).
    unfold in_int32; lia.
  - apply (at_bounds_checked 4 (AlignedStorage.ctor 16 4 0x1008) 3
             (fun _ => 0)).
    unfold in_int32; lia.
Defined.

(* ================================================================= *)
(** ** Memory: stores followed by loads *)

Section MemoryFacts.

Lemma write_outside (bs : list Z) (p a : Z) (h : Z -> Z) :
  a < p \/ p + Z.of_nat (List.length bs) <= a ->
  Memory.write p bs h a = h a.
Proof.
  revert p h. induction bs as [| b bs IH]; intros p h Ha; cbn [Memory.write].
  - reflexivity.
  - cbn [List.length] in Ha. rewrite IH by lia.
    destruct (Z.eqb_spec a p); [lia | reflexivity].
Qed.

Lemma read_write (bs : list Z) (p : Z) (h : Z -> Z) :
  Memory.read p (List.length bs) (Memory.write p bs h) = bs.
Proof.
  revert p h. induction bs as [| b bs IH]; intros p h;
    cbn [Memory.read Memory.write List.length].
  - reflexivity.
  - rewrite IH. f_equal.
    rewrite write_outside by lia. now rewrite Z.eqb_refl.
Qed.


(** The bytes of a register, reassembled from byte [k] on. *)
Lemma of_bytes_byte_at (v : Z) (n k : nat) :
  of_bytes (map (byte_at v) (map Z.of_nat (seq k n)))
  = Z.land (Z.shiftr v (8 * Z.of_nat k)) (Z.ones (8 * Z.of_nat n)).
Proof.
  revert k. induction n as [| n IH]; intros k; cbn [seq map of_bytes].
  - change (Z.ones (8 * Z.of_nat 0)) with 0. now rewrite Z.land_0_r.
  - rewrite IH. unfold byte_at, mask8. change 0xFF with (Z.ones 8).
    replace (8 * Z.of_nat (S k)) with (8 * Z.of_nat k + 8) by lia.
    replace (8 * Z.of_nat (S n)) with (8 * Z.of_nat n + 8) by lia.
    generalize (Z.of_nat k) (Z.of_nat n) (Nat2Z.is_nonneg k) (Nat2Z.is_nonneg n).
    intros a b Ha Hb. Z.bitblast.
Qed.

Lemma of_bytes_storeu (v : Z) :
  of_bytes (_mm_storeu_si128 v) = Z.land v mask128.
Proof.
  change (_mm_storeu_si128 v)
    with (map (byte_at v) (map Z.of_nat (seq 0 16))).
  rewrite of_bytes_byte_at. now rewrite Z.shiftr_0_r.
Qed.

Lemma lane_land_mask128 (v k : Z) :
  0 <= k < 4 -> lane k (Z.land v mask128) = lane k v.
Proof.
  intros Hk. unfold lane, mask32, mask128.
  change 0xFFFFFFFF with (Z.ones 32).
  change 0xFFFFFFFFFFFFFFFFFFFFFFFFFFFFFFFF with (Z.ones 128).
  Z.bitblast.
Qed.

End MemoryFacts.

(** X1: an unaligned store followed by an unaligned load from the same
    address gives back the register (its 128 bits, hence every lane as
    [operator[]] reads it), for [Vect128i] and for [Vect128f]; the store
    changes no byte outside the sixteen it writes. *)
Theorem storeu_loadu_roundtrip (v p : Z) (h : Z -> Z) :
  (Vect128i.loadu (Vect128i.storeu_to v p h) p = Z.land v mask128
   /\ Vect128f.loadu (Vect128f.storeu_to v p h) p = Z.land v mask128)
  /\ (forall k : Z,
        0 <= k < 4 ->
        Vect128i.index (Vect128i.loadu (Vect128i.storeu_to v p h) p) k
          = Vect128i.index v k
        /\ Vect128f.index (Vect128f.loadu (Vect128f.storeu_to v p h) p) k
          = Vect128f.index v k)
  /\ (forall a : Z,
        a < p \/ p + 16 <= a ->
        Vect128i.storeu_to v p h a = h a /\ Vect128f.storeu_to v p h a = h a).
Proof.
  assert (Vect128i.loadu (Vect128i.storeu_to v p h) p = Z.land v mask128) as E.
  { unfold Vect128i.loadu, Vect128i.storeu_to, _mm_loadu_si128.
    change 16%nat with (List.length (_mm_storeu_si128 v)).
    rewrite read_write. apply of_bytes_storeu. }
  split; [split; [exact E | exact E] |]. split.
  - intros k Hk.
    change (Vect128f.loadu (Vect128f.storeu_to v p h) p)
      with (Vect128i.loadu (Vect128i.storeu_to v p h) p).
    rewrite E, !Vect128i_index_lane, !Vect128f_index_lane by exact Hk.
    now rewrite lane_land_mask128 by exact Hk.
  - intros a Ha.
    split; apply write_outside;
      cbn [List.length _mm_storeu_si128 _mm_storeu_ps map]; lia.
Qed.

Lemma storeu_loadu_roundtrip_witness :
  Vect128i.index
    (Vect128i.loadu
       (Vect128i.storeu_to (Vect128i.of_lanes 0 1 2 3) 0x1001 (fun _ => 0))
       0x1001) 3
    = Vect128i.index (Vect128i.of_lanes 0 1 2 3) 3
  /\ Vect128f.index
       (Vect128f.loadu
          (Vect128f.storeu_to (Vect128i.of_lanes 0 1 2 3) 0x1001 (fun _ => 0))
          0x1001) 3
    = Vect128f.index (Vect128i.of_lanes 0 1 2 3) 3.
Proof.
  apply (proj1 (proj2 (storeu_loadu_roundtrip
                         (Vect128i.of_lanes 0 1 2 3) 0x1001 (fun _ => 0))) 3).
  lia.
Defined.

(* ================================================================= *)
(** ** AlignedStorage: layout of the block *)

Section Layout.

Import AlignedStorage.

Variables sizeofT Align len raw : Z.
Hypothesis HT : 0 < sizeofT.
Hypothesis HA : 0 < Align < 2 ^ 31.
Hypothesis Hlen : 0 <= len.
Hypothesis Hsz : len * sizeofT + Align < 2 ^ 64.
Hypothesis Hblk : block raw (malloc_size sizeofT Align len).

Lemma malloc_size_exact : malloc_size sizeofT Align len = len * sizeofT + Align.
Proof.
  assert (0 <= len * sizeofT) by nia.
  unfold malloc_size.
  rewrite (size_t_small (len * sizeofT)) by lia.
  rewrite (size_t_small Align) by lia.
  apply size_t_small. lia.
Qed.

(** The aligned pointer is a multiple of [Align] strictly inside the
    block, and the elements end before the block does. *)
Lemma ctor_layout :
  aligned (ctor Align len raw) mod Align = 0
  /\ raw < aligned (ctor Align len raw)
  /\ aligned (ctor Align len raw) + len * sizeofT
     <= raw + malloc_size sizeofT Align len.
Proof.
  destruct Hblk as [Hraw [_ Hend]]. rewrite malloc_size_exact in *.
  assert (0 <= len * sizeofT) by nia.
  pose proof (Z.mod_pos_bound raw Align (proj1 HA)) as Hm.
  rewrite (ctor_aligned Align len raw HA) by lia.
  split; [apply offset_is_aligned; lia | lia].
Qed.

End Layout.



(** X3: [clear()] on a storage whose allocation succeeded sets every byte
    of every element to zero and changes no other byte of memory; the
    bytes it writes all lie inside the allocated block. *)
Theorem clear_zeroes_exactly_the_elements
  (sizeofT Align len raw : Z) (h : AlignedStorage.heap) :
  0 < sizeofT ->
  0 < Align < 2 ^ 31 ->
  0 <= len ->
  len * sizeofT + Align < 2 ^ 64 ->
  AlignedStorage.block raw (AlignedStorage.malloc_size sizeofT Align len) ->
  let s := AlignedStorage.ctor Align len raw in
  exists h' : AlignedStorage.heap,
    AlignedStorage.clear sizeofT s h = (AlignedStorage.Return tt, h')
    /\ (forall i b : Z,
          0 <= i < len -> 0 <= b < sizeofT ->
          h' (AlignedStorage.aligned s + i * sizeofT + b) = 0)
    /\ (forall a : Z,
          a < AlignedStorage.aligned s
          \/ AlignedStorage.aligned s + len * sizeofT <= a ->
          h' a = h a)
    /\ raw < AlignedStorage.aligned s
    /\ AlignedStorage.aligned s + len * sizeofT
       <= raw + AlignedStorage.malloc_size sizeofT Align len.
Proof.
  intros HT HA Hlen Hsz Hblk s.
  destruct (ctor_layout sizeofT Align len raw HT HA Hlen Hsz Hblk)
    as (_ & Hlo & Hhi).
  fold s in Hlo, Hhi.
  assert (0 <= len * sizeofT) as Hprod by nia.
  assert (size_t (AlignedStorage.length s * sizeofT) = len * sizeofT) as Hn.
  { cbn [s AlignedStorage.ctor AlignedStorage.length].
    apply size_t_small. lia. }
  eexists. split; [reflexivity |].
  unfold AlignedStorage.memset. rewrite Hn.
  split; [| split; [| split; assumption]].
  - intros i b Hi Hb.
    assert (0 <= i * sizeofT /\ i * sizeofT + b < len * sizeofT) as [L U] by nia.
    destruct (Z.leb_spec (AlignedStorage.aligned s)
                (AlignedStorage.aligned s + i * sizeofT + b)); [| lia].
    destruct (Z.ltb_spec (AlignedStorage.aligned s + i * sizeofT + b)
                (AlignedStorage.aligned s + len * sizeofT)); [| lia].
    reflexivity.
  - intros a Ha.
    destruct (Z.leb_spec (AlignedStorage.aligned s) a);
      destruct (Z.ltb_spec a (AlignedStorage.aligned s + len * sizeofT));
      cbn [andb]; try reflexivity; lia.
Qed.

Lemma clear_zeroes_exactly_the_elements_witness :
  let s := AlignedStorage.ctor 128 256 0x1008 in
  exists h' : AlignedStorage.heap,
    AlignedStorage.clear 4 s (fun _ => 0xAA) = (AlignedStorage.Return tt, h')
    /\ (forall i b : Z,
          0 <= i < 256 -> 0 <= b < 4 ->
          h' (AlignedStorage.aligned s + i * 4 + b) = 0)
    /\ (forall a : Z,
          a < AlignedStorage.aligned s
          \/ AlignedStorage.aligned s + 256 * 4 <= a ->
          h' a = (fun _ => 0xAA) a)
    /\ 0x1008 < AlignedStorage.aligned s
    /\ AlignedStorage.aligned s + 256 * 4
       <= 0x1008 + AlignedStorage.malloc_size 4 128 256.
Proof.
  apply (clear_zeroes_exactly_the_elements 4 128 256 0x1008 (fun _ => 0xAA));
    [lia | lia | lia | lia |].
  unfold AlignedStorage.block. vm_compute. repeat split; discriminate.
Defined.



(** X5: in a storage whose allocation succeeded and whose byte count
    [length * sizeof(T) + Align] does not wrap around in [size_t], a
    reference returned by [at(i)] designates [sizeof(T)] bytes that lie
    wholly inside the allocated block, and the references returned for
    two different indices designate disjoint bytes. *)
Theorem at_reference_inside_block
  (sizeofT Align len raw i j p q : Z) (h h1 h2 : AlignedStorage.heap) :
  0 < sizeofT ->
  0 < Align < 2 ^ 31 ->
  0 <= len ->
  len * sizeofT + Align < 2 ^ 64 ->
  AlignedStorage.block raw (AlignedStorage.malloc_size sizeofT Align len) ->
  in_int32 i ->
  in_int32 j ->
  AlignedStorage.at_ sizeofT (AlignedStorage.ctor Align len raw) i h
    = (AlignedStorage.Return p, h1) ->
  AlignedStorage.at_ sizeofT (AlignedStorage.ctor Align len raw) j h
    = (AlignedStorage.Return q, h2) ->
  (raw < p
   /\ p + sizeofT <= raw + AlignedStorage.malloc_size sizeofT Align len)
  /\ (i <> j -> p + sizeofT <= q \/ q + sizeofT <= p).
Proof.
  intros HT HA Hlen Hsz Hblk Hi Hj Ei Ej.
  destruct (ctor_layout sizeofT Align len raw HT HA Hlen Hsz Hblk)
    as (_ & Hlo & Hhi).
  set (s := AlignedStorage.ctor Align len raw) in *.
  assert (forall k r hk, in_int32 k ->
            AlignedStorage.at_ sizeofT s k h = (AlignedStorage.Return r, hk) ->
            0 <= k < len /\ r = AlignedStorage.aligned s + k * sizeofT) as B.
  { intros k r hk Hk E.
    destruct ((k <? 0) || (size_t k >=? AlignedStorage.length s)) eqn:G.
    - rewrite (at_throw sizeofT s k h G) in E. discriminate E.
    - rewrite (at_return sizeofT s k h G) in E. injection E as <- _.
      split; [| reflexivity].
      assert (~ (k < 0 \/ k >= AlignedStorage.length s)) as N
        by (rewrite <- (at_guard s k Hk), G; discriminate).
      cbn [s AlignedStorage.ctor AlignedStorage.length] in N. lia. }
  destruct (B i p h1 Hi Ei) as [Bi ->]. destruct (B j q h2 Hj Ej) as [Bj ->].
  split; [split; nia |].
  intros Hne. assert (i < j \/ j < i) as [L | L] by lia; [left | right]; nia.
Qed.

Lemma at_reference_inside_block_witness :
  (0x1008 < 0x1010 + 3 * 4
   /\ 0x1010 + 3 * 4 + 4 <= 0x1008 + AlignedStorage.malloc_size 4 16 4)
  /\ (3 <> 2 -> 0x1010 + 3 * 4 + 4 <= 0x1010 + 2 * 4
               \/ 0x1010 + 2 * 4 + 4 <= 0x1010 + 3 * 4).
Proof.
  apply (at_reference_inside_block 4 16 4 0x1008 3 2
           (0x1010 + 3 * 4) (0x1010 + 2 * 4)
           (fun _ => 0) (fun _ => 0) (fun _ => 0));
    try (unfold in_int32; lia); try reflexivity.
  unfold AlignedStorage.block. vm_compute. repeat split; discriminate.
Defined.

(* ================================================================= *)
(** ** Integer lanes: derived comparisons and arithmetic laws *)

Section IntegerLanes.

Lemma u32_add_l (x y : Z) : u32 (u32 x + y) = u32 (x + y).
Proof. rewrite !u32_mod. apply Zplus_mod_idemp_l. Qed.

Lemma u32_add_r (x y : Z) : u32 (x + u32 y) = u32 (x + y).
Proof. rewrite !u32_mod. apply Zplus_mod_idemp_r. Qed.

Lemma u32_sub_l (x y : Z) : u32 (u32 x - y) = u32 (x - y).
Proof. rewrite !u32_mod. apply Zminus_mod_idemp_l. Qed.

Lemma u32_mul_l (x y : Z) : u32 (u32 x * y) = u32 (x * y).
Proof. rewrite !u32_mod. apply Zmult_mod_idemp_l. Qed.

Lemma u32_mul_r (x y : Z) : u32 (x * u32 y) = u32 (x * y).
Proof. rewrite !u32_mod. apply Zmult_mod_idemp_r. Qed.

Lemma u32_lane (k v : Z) : u32 (lane k v) = lane k v.
Proof. apply u32_small, lane_range. Qed.

Lemma int32_t_sub (x y : Z) :
  int32_t (x - y) = int32_t (int32_t x - int32_t y).
Proof.
  apply int32_t_mod_eq.
  destruct (int32_t_congr x) as [p Hp]. destruct (int32_t_congr y) as [q Hq].
  symmetry. apply (mod_eq_shift _ _ (p - q)). lia.
Qed.

(** Both bodies of [operator*] leave in lane [k] the low 32 bits of the
    product of the two lanes. *)
Lemma op_mul_lane (f : bool) (a v k : Z) :
  0 <= k < 4 ->
  lane k (Vect128i.op_mul f a v) = u32 (lane k a * lane k v).
Proof.
  intros Hk. destruct f; cbn [Vect128i.op_mul].
  - unfold Vect128i.mul_native, _mm_mullo_epi32.
    rewrite lane_map2 by exact Hk. symmetry. apply u32_mul_signed.
  - rewrite mul_fallback_lanes, lane_pack by exact Hk.
    four_lanes k; reflexivity.
Qed.

(** Both bodies of [operator*] return a register of the form [pack]. *)
Lemma op_mul_pack (f : bool) (a v : Z) :
  Vect128i.op_mul f a v
  = pack (lane 0 a * lane 0 v) (lane 1 a * lane 1 v)
         (lane 2 a * lane 2 v) (lane 3 a * lane 3 v).
Proof.
  destruct f; cbn [Vect128i.op_mul].
  - unfold Vect128i.mul_native, _mm_mullo_epi32, map2.
    apply pack_ext; symmetry; apply u32_mul_signed.
  - apply mul_fallback_lanes.
Qed.

Lemma pack_of_lanes (v : Z) :
  pack (lane 0 v) (lane 1 v) (lane 2 v) (lane 3 v) = Z.land v mask128.
Proof.
  unfold pack, lane, u32, mask32, mask128.
  change 0xFFFFFFFF with (Z.ones 32).
  change 0xFFFFFFFFFFFFFFFFFFFFFFFFFFFFFFFF with (Z.ones 128).
  Z.bitblast.
Qed.

Lemma lane_land (a b k : Z) :
  0 <= k -> lane k (Z.land a b) = Z.land (lane k a) (lane k b).
Proof.
  intros Hk. unfold lane, mask32. change 0xFFFFFFFF with (Z.ones 32).
  Z.bitblast.
Qed.

Lemma lane_lor (a b k : Z) :
  0 <= k -> lane k (Z.lor a b) = Z.lor (lane k a) (lane k b).
Proof.
  intros Hk. unfold lane, mask32. change 0xFFFFFFFF with (Z.ones 32).
  Z.bitblast.
Qed.

(** Complementing a 32-bit pattern, read as a signed integer. *)
Lemma int32_t_complement (x : Z) :
  in_u32 x -> int32_t (Z.lxor x 0xFFFFFFFF) = - 1 - int32_t x.
Proof.
  unfold in_u32. intros Hx.
  assert (Z.lxor x 0xFFFFFFFF = 0xFFFFFFFF - x) as ->.
  { change 0xFFFFFFFF with (Z.ones 32).
    assert (Z.land x (Z.ones 32) = x) as Hm
      by (rewrite Z.land_ones by lia; now apply Z.mod_small).
    assert (x + Z.lxor x (Z.ones 32) = Z.ones 32) as Hs; [| lia].
    rewrite Z.add_nocarry_lxor.
    - now rewrite <- Z.lxor_assoc, Z.lxor_nilpotent, Z.lxor_0_l.
    - rewrite <- Hm. Z.bitblast. }
  unfold int32_t. rewrite (u32_small (0xFFFFFFFF - x)) by (unfold in_u32; lia).
  rewrite (u32_small x) by exact Hx.
  destruct (Z.ltb_spec (0xFFFFFFFF - x) (2 ^ 31));
    destruct (Z.ltb_spec x (2 ^ 31)); lia.
Qed.

End IntegerLanes.

Section RegisterEquality.

(** Two lane-wise results are the same register as soon as their lanes
    agree on the low 32 bits. *)
Lemma map2_ext (f g : Z -> Z -> Z) (a b c d : Z) :
  (forall k, 0 <= k < 4 ->
     u32 (f (lane k a) (lane k b)) = u32 (g (lane k c) (lane k d))) ->
  map2 f a b = map2 g c d.
Proof.
  intros E. unfold map2. apply pack_ext; apply E; lia.
Qed.

Lemma map2_eq_register (f : Z -> Z -> Z) (a b c : Z) :
  (forall k, 0 <= k < 4 -> u32 (f (lane k a) (lane k b)) = lane k c) ->
  map2 f a b = Z.land c mask128.
Proof.
  intros E. rewrite <- pack_of_lanes. unfold map2.
  apply pack_ext; rewrite u32_lane; apply E; lia.
Qed.

Lemma op_mul_map2 (f : bool) (a v : Z) :
  Vect128i.op_mul f a v = map2 Z.mul a v.
Proof. apply op_mul_pack. Qed.

End RegisterEquality.

(** X6: the comparisons that [Vect128i] derives through NOT are the
    expected masks: lane [k] of [a <= v], [a >= v] and [a != v] reads [-1]
    when the signed lanes satisfy the relation and [0] when they do not. *)
Theorem derived_integer_comparisons (a v : Vect128i.t) (k x y : Z) :
  0 <= k < 4 ->
  Vect128i.index a k = Some x ->
  Vect128i.index v k = Some y ->
  Vect128i.index (Vect128i.op_le a v) k = Some (if x <=? y then -1 else 0)
  /\ Vect128i.index (Vect128i.op_ge a v) k = Some (if x >=? y then -1 else 0)
  /\ Vect128i.index (Vect128i.op_ne a v) k = Some (if x =? y then 0 else -1).
Proof.
  intros Hk Ha Hv.
  rewrite Vect128i_index_lane in Ha, Hv by exact Hk.
  injection Ha as <-. injection Hv as <-.
  rewrite !Vect128i_index_lane by exact Hk.
  unfold Vect128i.op_le, Vect128i.op_ge, Vect128i.op_ne.
  rewrite !Vect128i_not_lane by exact Hk.
  unfold Vect128i.op_gt, Vect128i.op_lt, Vect128i.op_eq,
    _mm_cmpgt_epi32, _mm_cmplt_epi32, _mm_cmpeq_epi32.
  rewrite !lane_compare by exact Hk.
  rewrite Z.gtb_ltb, Z.leb_antisym, Z.geb_leb,
    (Z.ltb_antisym (int32_t (lane k v))).
  destruct (int32_t (lane k v) <? int32_t (lane k a)),
    (int32_t (lane k v) <=? int32_t (lane k a)),
    (int32_t (lane k a) =? int32_t (lane k v));
    repeat split; reflexivity.
Qed.

Lemma derived_integer_comparisons_witness :
  Vect128i.index
    (Vect128i.op_le (Vect128i.of_lanes 0 1 (-1) 2147483647)
                    (Vect128i.broadcast 0)) 2
    = Some (if -1 <=? 0 then -1 else 0)
  /\ Vect128i.index
       (Vect128i.op_ge (Vect128i.of_lanes 0 1 (-1) 2147483647)
                       (Vect128i.broadcast 0)) 2
     = Some (if -1 >=? 0 then -1 else 0)
  /\ Vect128i.index
       (Vect128i.op_ne (Vect128i.of_lanes 0 1 (-1) 2147483647)
                       (Vect128i.broadcast 0)) 2
     = Some (if -1 =? 0 then 0 else -1).
Proof.
  apply (derived_integer_comparisons
           (Vect128i.of_lanes 0 1 (-1) 2147483647) (Vect128i.broadcast 0)
           2 (-1) 0);
    [lia | vm_compute; reflexivity | vm_compute; reflexivity].
Defined.

(** X7: on [Vect128i], [+] is commutative and associative, the zero
    vector is neutral, and [-] undoes [+] (and conversely) exactly, even
    when a lane wrapped around; lane [k] of [a - v] reads as the
    [int32_t] congruent to [x - y] modulo 2^32. *)
Theorem integer_add_sub_laws (a b c : Vect128i.t) :
  Vect128i.op_add a b = Vect128i.op_add b a
  /\ Vect128i.op_add (Vect128i.op_add a b) c
     = Vect128i.op_add a (Vect128i.op_add b c)
  /\ Vect128i.op_add a (Vect128i.broadcast 0) = Z.land a mask128
  /\ Vect128i.op_sub (Vect128i.op_add a b) b = Z.land a mask128
  /\ Vect128i.op_add (Vect128i.op_sub a b) b = Z.land a mask128
  /\ forall k x y : Z,
       0 <= k < 4 ->
       Vect128i.index a k = Some x ->
       Vect128i.index b k = Some y ->
       Vect128i.index (Vect128i.op_sub a b) k = Some (int32_t (x - y))
       /\ Vect128i.index (Vect128i.op_sub (Vect128i.op_add a b) b) k = Some x.
Proof.
  unfold Vect128i.op_add, Vect128i.op_sub, _mm_add_epi32, _mm_sub_epi32,
    Vect128i.broadcast, _mm_set1_epi32.
  assert (map2 (fun x y => x - y) (map2 (fun x y => x + y) a b) b
          = Z.land a mask128) as Hinv.
  { apply map2_eq_register. intros k Hk. rewrite lane_map2 by exact Hk.
    rewrite u32_sub_l.
    transitivity (u32 (lane k a)); [f_equal; ring | apply u32_lane]. }
  split; [| split; [| split; [| split; [| split]]]].
  - apply map2_ext. intros k _. f_equal. ring.
  - apply map2_ext. intros k Hk. rewrite !lane_map2 by exact Hk.
    rewrite u32_add_l, u32_add_r. f_equal. ring.
  - apply map2_eq_register. intros k Hk. rewrite lane_broadcast by exact Hk.
    change (u32 0) with 0. rewrite Z.add_0_r. apply u32_lane.
  - exact Hinv.
  - apply map2_eq_register. intros k Hk. rewrite lane_map2 by exact Hk.
    rewrite u32_add_l.
    transitivity (u32 (lane k a)); [f_equal; ring | apply u32_lane].
  - intros k x y Hk Ha Hb.
    rewrite Vect128i_index_lane in Ha, Hb by exact Hk.
    injection Ha as <-. injection Hb as <-.
    split.
    + rewrite Vect128i_index_lane, lane_map2 by exact Hk.
      now rewrite int32_t_u32, int32_t_sub.
    + rewrite Hinv, Vect128i_index_lane by exact Hk.
      now rewrite lane_land_mask128 by exact Hk.
Qed.

(** The wrapped sum of C7, undone by the subtraction. *)
Lemma integer_add_sub_laws_witness :
  Vect128i.index
    (Vect128i.op_sub (Vect128i.broadcast 2147483647) (Vect128i.broadcast (-1))) 1
    = Some (int32_t (2147483647 - -1))
  /\ Vect128i.index
       (Vect128i.op_sub
          (Vect128i.op_add (Vect128i.broadcast 2147483647)
                           (Vect128i.broadcast (-1)))
          (Vect128i.broadcast (-1))) 1
     = Some 2147483647.
Proof.
  apply (proj2 (proj2 (proj2 (proj2 (proj2
           (integer_add_sub_laws (Vect128i.broadcast 2147483647)
              (Vect128i.broadcast (-1)) 0)))))
           1 2147483647 (-1));
    [lia | vm_compute; reflexivity | vm_compute; reflexivity].
Defined.

(** X8: on [Vect128i], whichever body of [operator*] is compiled, [*] is
    commutative and associative, distributes over [+], has the
    broadcast [Vect128i(1)] as neutral element, and lane [k] of [a * v]
    reads as the [int32_t] congruent to [x * y] modulo 2^32. *)
Theorem integer_mul_laws (f : bool) (a b c : Vect128i.t) :
  Vect128i.op_mul f a b = Vect128i.op_mul f b a
  /\ Vect128i.op_mul f (Vect128i.op_mul f a b) c
     = Vect128i.op_mul f a (Vect128i.op_mul f b c)
  /\ Vect128i.op_mul f a (Vect128i.op_add b c)
     = Vect128i.op_add (Vect128i.op_mul f a b) (Vect128i.op_mul f a c)
  /\ Vect128i.op_mul f a (Vect128i.broadcast 1) = Z.land a mask128
  /\ forall k x y : Z,
       0 <= k < 4 ->
       Vect128i.index a k = Some x ->
       Vect128i.index b k = Some y ->
       Vect128i.index (Vect128i.op_mul f a b) k = Some (int32_t (x * y)).
Proof.
  rewrite !op_mul_map2.
  unfold Vect128i.op_add, _mm_add_epi32, Vect128i.broadcast, _mm_set1_epi32.
  split; [| split; [| split; [| split]]].
  - apply map2_ext. intros k _. f_equal. ring.
  - apply map2_ext. intros k Hk. rewrite !lane_map2 by exact Hk.
    rewrite u32_mul_l, u32_mul_r. f_equal. ring.
  - apply map2_ext. intros k Hk. rewrite !lane_map2 by exact Hk.
    rewrite u32_mul_r, u32_add_l, u32_add_r. f_equal. ring.
  - apply map2_eq_register. intros k Hk. rewrite lane_broadcast by exact Hk.
    change (u32 1) with 1. rewrite Z.mul_1_r. apply u32_lane.
  - intros k x y Hk Ha Hb.
    rewrite Vect128i_index_lane in Ha, Hb by exact Hk.
    injection Ha as <-. injection Hb as <-.
    rewrite Vect128i_index_lane, lane_map2 by exact Hk.
    rewrite int32_t_u32. f_equal. apply int32_t_mod_eq.
    rewrite <- !u32_mod. apply u32_mul_signed.
Qed.

(** 65536 * 65536 wraps to 0 and 46341 * 46341 to -2147479015, with the
    fallback body. *)
Lemma integer_mul_laws_witness :
  Vect128i.index
    (Vect128i.op_mul false (Vect128i.of_lanes (-1) 65536 (-2147483648) 46341)
                           (Vect128i.of_lanes (-1) 65536 3 46341)) 3
  = Some (int32_t (46341 * 46341)).
Proof.
  apply (proj2 (proj2 (proj2 (proj2
           (integer_mul_laws false
              (Vect128i.of_lanes (-1) 65536 (-2147483648) 46341)
              (Vect128i.of_lanes (-1) 65536 3 46341) 0))))
           3 46341 46341);
    [lia | vm_compute; reflexivity | vm_compute; reflexivity].
Defined.

(** X9: on [Vect128i], [&], [|] and [^] act on each lane as the 32-bit
    bit operation; NOT reads in each lane as [-1 - x], is its own inverse,
    and satisfies De Morgan's law with [&] and [|] in every lane. *)
Theorem integer_bitwise_laws (a v : Vect128i.t) :
  Vect128i.op_not (Vect128i.op_not a) = a
  /\ forall k x : Z,
       0 <= k < 4 ->
       Vect128i.index a k = Some x ->
       lane k (Vect128i.op_and a v) = Z.land (lane k a) (lane k v)
       /\ lane k (Vect128i.op_or a v) = Z.lor (lane k a) (lane k v)
       /\ lane k (Vect128i.op_xor a v) = Z.lxor (lane k a) (lane k v)
       /\ Vect128i.index (Vect128i.op_not a) k = Some (- 1 - x)
       /\ lane k (Vect128i.op_not (Vect128i.op_and a v))
          = lane k (Vect128i.op_or (Vect128i.op_not a) (Vect128i.op_not v))
       /\ lane k (Vect128i.op_not (Vect128i.op_or a v))
          = lane k (Vect128i.op_and (Vect128i.op_not a) (Vect128i.op_not v)).
Proof.
  split.
  - unfold Vect128i.op_not, Vect128i.op_xor, _mm_xor_si128.
    apply lxor_cancel_r.
  - intros k x Hk Ha.
    rewrite Vect128i_index_lane in Ha by exact Hk. injection Ha as <-.
    assert (0 <= k) as Hk0 by lia.
    split; [apply lane_land; exact Hk0 |].
    split; [apply lane_lor; exact Hk0 |].
    split; [apply lane_lxor; exact Hk0 |].
    split.
    + rewrite Vect128i_index_lane, Vect128i_not_lane by exact Hk.
      f_equal. apply int32_t_complement, lane_range.
    + unfold Vect128i.op_and, Vect128i.op_or, _mm_and_si128, _mm_or_si128.
      rewrite lane_lor, lane_land by exact Hk0.
      rewrite !Vect128i_not_lane by exact Hk.
      rewrite lane_land, lane_lor by exact Hk0.
      generalize (lane_range k a) (lane_range k v).
      generalize (lane k a) (lane k v). unfold in_u32. intros p q Hp Hq.
      assert (Z.land p (Z.ones 32) = p) as Ep
        by (rewrite Z.land_ones by lia; now apply Z.mod_small).
      assert (Z.land q (Z.ones 32) = q) as Eq
        by (rewrite Z.land_ones by lia; now apply Z.mod_small).
      rewrite <- Ep, <- Eq. change 0xFFFFFFFF with (Z.ones 32).
      split; Z.bitblast.
Qed.

(** The vectors 0xFF00FF00 and 0x00FF00FF of the integer operator test. *)
Lemma integer_bitwise_laws_witness :
  Vect128i.index (Vect128i.op_not (Vect128i.broadcast 0x00FF00FF)) 0
  = Some (- 1 - 0x00FF00FF).
Proof.
  refine (proj1 (proj2 (proj2 (proj2
            (proj2 (integer_bitwise_laws
                      (Vect128i.broadcast 0x00FF00FF) (Vect128i.broadcast 0))
               0 0x00FF00FF _ _)))));
    [lia | vm_compute; reflexivity].
Defined.

(* ================================================================= *)
(** ** [lowest] and [highest] *)

Section MinMax.

Lemma std_min_is_min (a b : Z) : Sight.std_min a b = Z.min a b.
Proof. unfold Sight.std_min. destruct (Z.ltb_spec b a); lia. Qed.

Lemma std_max_is_max (a b : Z) : Sight.std_max a b = Z.max a b.
Proof. unfold Sight.std_max. destruct (Z.ltb_spec a b); lia. Qed.

Lemma lowest_i_fallback (v v2 : Z) :
  Sight.lowest_i false v v2 = Some (_mm_min_epi32 v v2).
Proof.
  unfold Sight.lowest_i. rewrite !Vect128i_index_lane by lia.
  now rewrite !std_min_is_min.
Qed.

Lemma highest_i_fallback (v v2 : Z) :
  Sight.highest_i false v v2 = Some (_mm_max_epi32 v v2).
Proof.
  unfold Sight.highest_i. rewrite !Vect128i_index_lane by lia.
  now rewrite !std_max_is_max.
Qed.

Lemma float_leb_refl (x : Z) :
  Float32.isnan x = false -> Float32.leb x x = true.
Proof.
  intros N. apply isnan_false_decode in N.
  unfold Float32.leb, SFleb. now rewrite SFcompare_refl.
Qed.

Lemma float_ltb_leb (x y : Z) :
  Float32.ltb x y = true -> Float32.leb x y = true.
Proof.
  unfold Float32.ltb, Float32.leb, SFltb, SFleb.
  destruct (SFcompare _ _) as [[ | | ] |]; congruence.
Qed.

End MinMax.

(** X10: the scalar fallback of [lowest] and [highest] on [Vect128i]
    (four [operator[]] reads and [std::min] / [std::max]) is always
    defined and returns the register that [_mm_min_epi32] /
    [_mm_max_epi32] return; lane [k] of the results reads as the smaller
    and the larger of the two signed lanes. *)
Theorem lowest_highest_integer (v v2 : Vect128i.t) :
  Sight.lowest_i false v v2 = Sight.lowest_i true v v2
  /\ Sight.highest_i false v v2 = Sight.highest_i true v v2
  /\ forall k x y : Z,
       0 <= k < 4 ->
       Vect128i.index v k = Some x ->
       Vect128i.index v2 k = Some y ->
       exists lo hi : Vect128i.t,
         Sight.lowest_i false v v2 = Some lo
         /\ Sight.highest_i false v v2 = Some hi
         /\ Vect128i.index lo k = Some (Z.min x y)
         /\ Vect128i.index hi k = Some (Z.max x y).
Proof.
  rewrite lowest_i_fallback, highest_i_fallback.
  split; [reflexivity |]. split; [reflexivity |].
  intros k x y Hk Hv Hv2.
  rewrite Vect128i_index_lane in Hv, Hv2 by exact Hk.
  injection Hv as <-. injection Hv2 as <-.
  exists (_mm_min_epi32 v v2), (_mm_max_epi32 v v2).
  split; [reflexivity |]. split; [reflexivity |].
  rewrite !Vect128i_index_lane by exact Hk.
  unfold _mm_min_epi32, _mm_max_epi32. rewrite !lane_map2 by exact Hk.
  rewrite !int32_t_u32.
  pose proof (int32_t_range (lane k v)) as Rx.
  pose proof (int32_t_range (lane k v2)) as Ry.
  split; f_equal; apply int32_t_id; unfold in_int32 in *; lia.
Qed.

Lemma lowest_highest_integer_witness :
  exists lo hi : Vect128i.t,
    Sight.lowest_i false (Vect128i.of_lanes 0 1 (-1) 2147483647)
                         (Vect128i.broadcast 0) = Some lo
    /\ Sight.highest_i false (Vect128i.of_lanes 0 1 (-1) 2147483647)
                             (Vect128i.broadcast 0) = Some hi
    /\ Vect128i.index lo 2 = Some (Z.min (-1) 0)
    /\ Vect128i.index hi 2 = Some (Z.max (-1) 0).
Proof.
  apply (proj2 (proj2 (lowest_highest_integer
                         (Vect128i.of_lanes 0 1 (-1) 2147483647)
                         (Vect128i.broadcast 0))) 2 (-1) 0);
    [lia | vm_compute; reflexivity | vm_compute; reflexivity].
Defined.

(** X11: lane [k] of [lowest(v, v2)] on [Vect128f] is the first lane when
    it is strictly smaller than the second and the second lane otherwise,
    and symmetrically for [highest].  When a lane of either operand is a
    NaN the result is therefore the lane of the second operand: a NaN in
    [v2] propagates, a NaN in [v] is dropped.  On operands that are not
    NaN the result is below (above) both. *)
Theorem lowest_highest_float (v v2 : Vect128f.t) (k x y : Z) :
  0 <= k < 4 ->
  Vect128f.index v k = Some x ->
  Vect128f.index v2 k = Some y ->
  Vect128f.index (Sight.lowest_f v v2) k
    = Some (if Float32.ltb x y then x else y)
  /\ Vect128f.index (Sight.highest_f v v2) k
    = Some (if Float32.gtb x y then x else y)
  /\ (Float32.isnan x = true \/ Float32.isnan y = true ->
      Vect128f.index (Sight.lowest_f v v2) k = Some y
      /\ Vect128f.index (Sight.highest_f v v2) k = Some y)
  /\ (Float32.isnan x = false -> Float32.isnan y = false ->
      forall lo hi : Z,
        Vect128f.index (Sight.lowest_f v v2) k = Some lo ->
        Vect128f.index (Sight.highest_f v v2) k = Some hi ->
        Float32.leb lo x = true /\ Float32.leb lo y = true
        /\ Float32.geb hi x = true /\ Float32.geb hi y = true).
Proof.
  intros Hk Hv Hv2.
  rewrite Vect128f_index_lane in Hv, Hv2 by exact Hk.
  injection Hv as <-. injection Hv2 as <-.
  rewrite !Vect128f_index_lane by exact Hk.
  unfold Sight.lowest_f, Sight.highest_f, _mm_min_ps, _mm_max_ps.
  rewrite !lane_map2 by exact Hk. cbv beta.
  generalize (lane_range k v) (lane_range k v2).
  generalize (lane k v) (lane k v2). intros x y Rx Ry.
  assert (u32 (if Float32.ltb x y then x else y)
          = if Float32.ltb x y then x else y) as ->
    by (destruct (Float32.ltb x y); now apply u32_small).
  assert (u32 (if Float32.gtb x y then x else y)
          = if Float32.gtb x y then x else y) as ->
    by (destruct (Float32.gtb x y); now apply u32_small).
  split; [reflexivity |]. split; [reflexivity |]. split.
  - intros N. destruct (float_unordered x y N) as (-> & -> & _).
    split; reflexivity.
  - intros Nx Ny lo hi Elo Ehi.
    assert (lo = if Float32.ltb x y then x else y) as -> by congruence.
    assert (hi = if Float32.gtb x y then x else y) as -> by congruence.
    clear Elo Ehi.
    destruct (float_ordered_negations x y Nx Ny) as [Ngt Nlt].
    unfold Float32.geb in *.
    split; [| split; [| split]].
    + destruct (Float32.ltb x y) eqn:L; [apply float_leb_refl; exact Nx |].
      rewrite <- Nlt. reflexivity.
    + destruct (Float32.ltb x y) eqn:L;
        [apply float_ltb_leb; exact L | apply float_leb_refl; exact Ny].
    + destruct (Float32.gtb x y) eqn:G; [apply float_leb_refl; exact Nx |].
      rewrite <- Ngt. reflexivity.
    + destruct (Float32.gtb x y) eqn:G;
        [apply float_ltb_leb; exact G | apply float_leb_refl; exact Ny].
Qed.

(** A quiet NaN against 1.0f, in either order. *)
Lemma lowest_highest_float_witness :
  (Vect128f.index
     (Sight.lowest_f (Vect128f.broadcast 0x7FC00000)
                     (Vect128f.broadcast 0x3F800000)) 0 = Some 0x3F800000
   /\ Vect128f.index
        (Sight.highest_f (Vect128f.broadcast 0x7FC00000)
                         (Vect128f.broadcast 0x3F800000)) 0 = Some 0x3F800000)
  /\ (Vect128f.index
        (Sight.lowest_f (Vect128f.broadcast 0x3F800000)
                        (Vect128f.broadcast 0x7FC00000)) 0 = Some 0x7FC00000
      /\ Vect128f.index
           (Sight.highest_f (Vect128f.broadcast 0x3F800000)
                            (Vect128f.broadcast 0x7FC00000)) 0
         = Some 0x7FC00000).
Proof.
  split.
  - refine (proj1 (proj2 (proj2
              (lowest_highest_float
                 (Vect128f.broadcast 0x7FC00000) (Vect128f.broadcast 0x3F800000)
                 0 0x7FC00000 0x3F800000 _ _ _))) _);
      [lia | vm_compute; reflexivity | vm_compute; reflexivity
      | left; vm_compute; reflexivity].
  - refine (proj1 (proj2 (proj2
              (lowest_highest_float
                 (Vect128f.broadcast 0x3F800000) (Vect128f.broadcast 0x7FC00000)
                 0 0x3F800000 0x7FC00000 _ _ _))) _);
      [lia | vm_compute; reflexivity | vm_compute; reflexivity
      | right; vm_compute; reflexivity].
Defined.

(* ================================================================= *)
(** ** Float comparisons taken together *)

Section FloatTrichotomy.

(** On ordered operands exactly one of [<], [==], [>] holds. *)
Lemma float_trichotomy (x y : Z) :
  Float32.isnan x = false -> Float32.isnan y = false ->
  (Float32.ltb x y = true /\ Float32.eqb x y = false /\ Float32.gtb x y = false)
  \/ (Float32.ltb x y = false /\ Float32.eqb x y = true /\ Float32.gtb x y = false)
  \/ (Float32.ltb x y = false /\ Float32.eqb x y = false /\ Float32.gtb x y = true).
Proof.
  intros Nx Ny. apply isnan_false_decode in Nx, Ny.
  unfold Float32.gtb, Float32.ltb, Float32.eqb, SFltb, SFeqb.
  rewrite (SFcompare_antisym (Float32.decode x) (Float32.decode y)).
  destruct (SFcompare_ordered _ _ Nx Ny) as [c ->].
  destruct c; cbn; auto.
Qed.

End FloatTrichotomy.

(** X12: the six comparison operators of [Vect128f] are consistent lane
    by lane.  When neither lane is a NaN, exactly one of [<], [==], [>]
    is all-ones.  When a lane of either operand is a NaN, [<], [==], [>]
    are [+0.0] and [<=], [>=], [!=] are all-ones.  In every case the lane
    of [!=] is the bitwise complement of the lane of [==]. *)
Theorem float_comparisons_consistent (a v : Vect128f.t) (k x y : Z) :
  0 <= k < 4 ->
  Vect128f.index a k = Some x ->
  Vect128f.index v k = Some y ->
  (Float32.isnan x = false -> Float32.isnan y = false ->
   In [Vect128f.index (Vect128f.op_lt a v) k;
       Vect128f.index (Vect128f.op_eq a v) k;
       Vect128f.index (Vect128f.op_gt a v) k]
      [ [Some 0xFFFFFFFF; Some 0; Some 0];
        [Some 0; Some 0xFFFFFFFF; Some 0];
        [Some 0; Some 0; Some 0xFFFFFFFF] ])
  /\ (Float32.isnan x = true \/ Float32.isnan y = true ->
      map (fun op : Vect128f.t -> Vect128f.t -> Vect128f.t =>
             Vect128f.index (op a v) k)
          [Vect128f.op_lt; Vect128f.op_eq; Vect128f.op_gt;
           Vect128f.op_le; Vect128f.op_ge; Vect128f.op_ne]
      = [Some 0; Some 0; Some 0;
         Some 0xFFFFFFFF; Some 0xFFFFFFFF; Some 0xFFFFFFFF])
  /\ lane k (Vect128f.op_ne a v)
     = Z.lxor (lane k (Vect128f.op_eq a v)) 0xFFFFFFFF.
Proof.
  intros Hk Ha Hv.
  rewrite Vect128f_index_lane in Ha, Hv by exact Hk.
  injection Ha as <-. injection Hv as <-.
  cbn [map]. rewrite !Vect128f_index_lane by exact Hk.
  unfold Vect128f.op_lt, Vect128f.op_gt, Vect128f.op_eq, Vect128f.op_le,
    Vect128f.op_ge, Vect128f.op_ne, _mm_cmplt_ps, _mm_cmpgt_ps,
    _mm_cmpeq_ps, _mm_cmpngt_ps, _mm_cmpnlt_ps, _mm_cmpneq_ps.
  rewrite !lane_compare by exact Hk.
  generalize (lane k a) (lane k v). intros x y.
  split; [| split].
  - intros Nx Ny.
    destruct (float_trichotomy x y Nx Ny)
      as [(-> & -> & ->) | [(-> & -> & ->) | (-> & -> & ->)]];
      cbn [all_ones_if In]; auto.
  - intros N. destruct (float_unordered x y N) as (-> & -> & _ & _ & ->).
    reflexivity.
  - now destruct (Float32.eqb x y).
Qed.

(** 1.0f against 2.0f, and a quiet NaN against 1.0f. *)
Lemma float_comparisons_consistent_witness :
  In [Vect128f.index
        (Vect128f.op_lt (Vect128f.broadcast 0x3F800000)
                        (Vect128f.broadcast 0x40000000)) 0;
      Vect128f.index
        (Vect128f.op_eq (Vect128f.broadcast 0x3F800000)
                        (Vect128f.broadcast 0x40000000)) 0;
      Vect128f.index
        (Vect128f.op_gt (Vect128f.broadcast 0x3F800000)
                        (Vect128f.broadcast 0x40000000)) 0]
     [ [Some 0xFFFFFFFF; Some 0; Some 0];
       [Some 0; Some 0xFFFFFFFF; Some 0];
       [Some 0; Some 0; Some 0xFFFFFFFF] ]
  /\ map (fun op : Vect128f.t -> Vect128f.t -> Vect128f.t =>
            Vect128f.index
              (op (Vect128f.broadcast 0x7FC00000)
                  (Vect128f.broadcast 0x3F800000)) 0)
         [Vect128f.op_lt; Vect128f.op_eq; Vect128f.op_gt;
          Vect128f.op_le; Vect128f.op_ge; Vect128f.op_ne]
     = [Some 0; Some 0; Some 0;
        Some 0xFFFFFFFF; Some 0xFFFFFFFF; Some 0xFFFFFFFF].
Proof.
  split.
  - refine (proj1 (float_comparisons_consistent
                     (Vect128f.broadcast 0x3F800000)
                     (Vect128f.broadcast 0x40000000)
                     0 0x3F800000 0x40000000 _ _ _) _ _);
      [lia | vm_compute; reflexivity | vm_compute; reflexivity
      | vm_compute; reflexivity | vm_compute; reflexivity].
  - refine (proj1 (proj2 (float_comparisons_consistent
                            (Vect128f.broadcast 0x7FC00000)
                            (Vect128f.broadcast 0x3F800000)
                            0 0x7FC00000 0x3F800000 _ _ _)) _);
      [lia | vm_compute; reflexivity | vm_compute; reflexivity
      | left; vm_compute; reflexivity].
Defined.

(* ================================================================= *)
(** ** Conversions between integer and float lanes *)

Section Conversions.

Lemma digits2_pos_bounds (m : positive) :
  2 ^ (Zpos (digits2_pos m) - 1) <= Zpos m < 2 ^ Zpos (digits2_pos m).
Proof.
  induction m as [m IH | m IH |]; cbn [digits2_pos].
  - rewrite Pos2Z.inj_succ, Z.pow_succ_r by lia.
    replace (Z.succ (Zpos (digits2_pos m)) - 1)
      with (Z.succ (Zpos (digits2_pos m) - 1)) by lia.
    rewrite Z.pow_succ_r by lia. lia.
  - rewrite Pos2Z.inj_succ, Z.pow_succ_r by lia.
    replace (Z.succ (Zpos (digits2_pos m)) - 1)
      with (Z.succ (Zpos (digits2_pos m) - 1)) by lia.
    rewrite Z.pow_succ_r by lia. lia.
  - cbn. lia.
Qed.

Ltac round_case H :=
  unfold binary_round, shl_align, fexp, emin;
  rewrite H; cbn -[binary_round_aux];
  unfold binary_round_aux, shr_fexp, Zdigits2, fexp, emin;
  repeat (cbn [digits2_pos]; rewrite ?H; cbn).

Lemma binary_round_exact (s : bool) (m : positive) :
  Zpos m < 2 ^ 24 ->
  exists (M : positive) (e : Z),
    binary_round 24 128 s m 0 = S754_finite s M e
    /\ Zpos M = Zpos m * 2 ^ (- e)
    /\ -23 <= e <= 0
    /\ 2 ^ 23 <= Zpos M < 2 ^ 24.
Proof.
  intros Hm. pose proof (digits2_pos_bounds m) as B.
  assert (Zpos (digits2_pos m) <= 24) as Hd.
  { destruct (Z.le_gt_cases (Zpos (digits2_pos m)) 24) as [L | G]; [exact L |].
    assert (2 ^ 24 <= 2 ^ (Zpos (digits2_pos m) - 1))
      by (apply Z.pow_le_mono_r; lia).
    lia. }
  remember (digits2_pos m) as c eqn:H. symmetry in H.
  assert (In c [1; 2; 3; 4; 5; 6; 7; 8; 9; 10; 11; 12; 13; 14; 15; 16; 17; 18;
                19; 20; 21; 22; 23; 24]%positive) as Hc.
  { cbn [In]. lia. }
  cbn [In] in Hc.
  repeat (destruct Hc as [<- | Hc]);
    [ .. | contradiction ];
    round_case H; (eexists _, _; split; [reflexivity |]);
    cbn in B; cbn; lia.
Qed.

Ltac b2z_bits :=
  repeat rewrite testbit_b2z;
  repeat match goal with
         | |- context [(?a =? 0)] => destruct (Z.eqb_spec a 0)
         end;
  subst; try lia;
  rewrite ?andb_false_r, ?andb_true_r, ?orb_false_r, ?orb_false_l;
  try reflexivity.

Lemma fields_masked (s : bool) (E F : Z) :
  let x := Z.lor (Z.shiftl (Z.b2z s) 31)
             (Z.lor (Z.shiftl (Z.land E (Z.ones 8)) 23) (Z.land F (Z.ones 23))) in
  Z.testbit x 31 = s
  /\ Z.land (Z.shiftr x 23) (Z.ones 8) = Z.land E (Z.ones 8)
  /\ Z.land x (Z.ones 23) = Z.land F (Z.ones 23)
  /\ Z.land x (Z.ones 32) = x.
Proof.
  intros x. unfold x. repeat split.
  - rewrite !Z.lor_spec, !Z.shiftl_spec, !Z.land_spec by lia.
    change (31 - 31) with 0. rewrite Z.b2z_bit0.
    rewrite (Z.ones_spec_high 8 (31 - 23)) by lia.
    rewrite (Z.ones_spec_high 23 31) by lia.
    now rewrite !andb_false_r, !orb_false_r.
  - Z.bitblast; b2z_bits.
  - Z.bitblast; b2z_bits.
  - Z.bitblast; b2z_bits.
Qed.

Lemma encode_normal_fields (s : bool) (M : positive) (e : Z) :
  2 ^ 23 <= Zpos M < 2 ^ 24 -> -149 <= e <= 104 ->
  Float32.decode (Float32.encode (S754_finite s M e)) = S754_finite s M e
  /\ in_u32 (Float32.encode (S754_finite s M e)).
Proof.
  intros HM He. cbn [Float32.encode]. rewrite sign_pattern.
  destruct (Z.ltb_spec (Zpos M) 0x800000) as [L | _]; [lia |].
  set (E := e + 150). set (F := Zpos M - 0x800000).
  assert (Z.land E (Z.ones 8) = E) as EE
    by (rewrite Z.land_ones by lia; apply Z.mod_small; unfold E; lia).
  assert (Z.land F (Z.ones 23) = F) as EF
    by (rewrite Z.land_ones by lia; apply Z.mod_small; unfold F; lia).
  destruct (fields_masked s E F) as (Hs & Hx & Hf & Hu).
  rewrite EE, EF in Hs, Hx, Hf, Hu.
  split.
  - unfold Float32.decode, Float32.sign_of, Float32.expo_of, Float32.frac_of.
    change 0xFF with (Z.ones 8). change 0x7FFFFF with (Z.ones 23).
    rewrite Hs, Hx, Hf.
    destruct (Z.eqb_spec E 0); [unfold E in *; lia |].
    destruct (Z.eqb_spec E (Z.ones 8)) as [C | _];
      [change (Z.ones 8) with 255 in C; unfold E in *; lia |].
    replace (F + 0x800000) with (Zpos M) by (unfold F; lia).
    replace (E - 150) with e by (unfold E; lia). reflexivity.
  - unfold in_u32. rewrite <- Hu, Z.land_ones by lia.
    apply Z.mod_pos_bound. lia.
Qed.

(** Integers of magnitude below 2^24 convert to [float] exactly. *)
Lemma trunc_of_Z (x : Z) :
  - 2 ^ 24 < x < 2 ^ 24 ->
  Float32.trunc (Float32.of_Z x) = Some x /\ in_u32 (Float32.of_Z x).
Proof.
  intros Hx. unfold Float32.of_Z, binary_normalize, Float32.prec, Float32.emax.
  destruct x as [| m | m].
  - split; [reflexivity | unfold in_u32; cbn; lia].
  - destruct (binary_round_exact false m) as (M & e & -> & HM & He & HB);
      [lia |].
    destruct (encode_normal_fields false M e HB) as [D U]; [lia |].
    split; [| exact U].
    unfold Float32.trunc. rewrite D.
    rewrite Z.shiftl_div_pow2, HM by lia.
    rewrite Z.div_mul; [reflexivity |].
    apply Z.pow_nonzero; lia.
  - destruct (binary_round_exact true m) as (M & e & -> & HM & He & HB);
      [lia |].
    destruct (encode_normal_fields true M e HB) as [D U]; [lia |].
    split; [| exact U].
    unfold Float32.trunc. rewrite D.
    rewrite Z.shiftl_div_pow2, HM by lia.
    rewrite Z.div_mul; [reflexivity |].
    apply Z.pow_nonzero; lia.
Qed.

Lemma cvtt_lane_of_Z (x : Z) :
  - 2 ^ 24 < x < 2 ^ 24 -> cvtt_lane (u32 (Float32.of_Z x)) = x.
Proof.
  intros Hx. destruct (trunc_of_Z x Hx) as [T U].
  rewrite (u32_small _ U). unfold cvtt_lane. rewrite T.
  destruct (Z.leb_spec (- 2 ^ 31) x); [| lia].
  destruct (Z.ltb_spec x (2 ^ 31)); [reflexivity | lia].
Qed.

End Conversions.

(** X13: converting a [Vect128i] to [Vect128f] and back with [to_int()]
    gives back every lane whose value lies strictly between -2^24 and
    2^24: such integers convert to [float] without rounding and the
    truncation recovers them. *)
Theorem int_float_int_roundtrip (v : Vect128i.t) (k x : Z) :
  0 <= k < 4 ->
  Vect128i.index v k = Some x ->
  - 2 ^ 24 < x < 2 ^ 24 ->
  Vect128i.index (Vect128f.to_int (Vect128i.to_float v)) k = Some x.
Proof.
  intros Hk Hv Hx.
  rewrite Vect128i_index_lane in Hv by exact Hk. injection Hv as Hv.
  rewrite Vect128i_index_lane by exact Hk.
  unfold Vect128f.to_int, _mm_cvttps_epi32, Vect128i.to_float, _mm_cvtepi32_ps.
  rewrite lane_pack by exact Hk.
  four_lanes k; cbn [nth];
    rewrite ?lane_pack_0, ?lane_pack_1, ?lane_pack_2, ?lane_pack_3;
    rewrite Hv, cvtt_lane_of_Z by exact Hx;
    rewrite int32_t_u32; f_equal; apply int32_t_id; unfold in_int32; lia.
Qed.

(** The vector 23 of the construction test, and an odd 24-bit value. *)
Lemma int_float_int_roundtrip_witness :
  Vect128i.index
    (Vect128f.to_int
       (Vect128i.to_float (Vect128i.of_lanes 23 (-23) 16777215 (-16777215)))) 3
  = Some (-16777215).
Proof.
  apply (int_float_int_roundtrip
           (Vect128i.of_lanes 23 (-23) 16777215 (-16777215)) 3 (-16777215));
    [lia | vm_compute; reflexivity | lia].
Defined.

(* ================================================================= *)
(** ** [room], masks and broadcasts *)

(** X14: [room<M>(i, length)] guards a leap of [M] elements: when it
    holds for a non-negative [i] (and [i + M] does not overflow [int]),
    [at(i + j)] returns the reference to element [i + j] without throwing
    for every [j] in [0, M). *)
Theorem room_guards_at
  (sizeofT M i j : Z) (s : AlignedStorage.t) (h : AlignedStorage.heap) :
  in_int32 i ->
  in_int32 (i + M) ->
  0 <= i ->
  Sight.room M i (AlignedStorage.length s) = true ->
  0 <= j < M ->
  AlignedStorage.at_ sizeofT s (i + j) h
  = (AlignedStorage.Return (AlignedStorage.aligned s + (i + j) * sizeofT), h).
Proof.
  intros Hi HiM Hi0 Hroom Hj.
  unfold Sight.room in Hroom. apply Z.leb_le in Hroom.
  apply at_return.
  assert (in_int32 (i + j)) as Hij by (unfold in_int32 in *; lia).
  destruct ((i + j <? 0) || (size_t (i + j) >=? AlignedStorage.length s)) eqn:G;
    [| reflexivity].
  apply (at_guard s (i + j) Hij) in G. lia.
Qed.

Lemma room_guards_at_witness :
  AlignedStorage.at_ 4 (AlignedStorage.ctor 16 8 0x1008) (4 + 3) (fun _ => 0)
  = (AlignedStorage.Return
       (AlignedStorage.aligned (AlignedStorage.ctor 16 8 0x1008) + (4 + 3) * 4),
     fun _ => 0).
Proof.
  apply (room_guards_at 4 4 4 3 (AlignedStorage.ctor 16 8 0x1008) (fun _ => 0));
    try (unfold in_int32; lia); reflexivity.
Defined.

Section MaskSelect.

Lemma land_all_ones_if (z : Z) (b : bool) :
  in_u32 z -> Z.land z (all_ones_if b) = if b then z else 0.
Proof.
  intros Hz. destruct b; cbn [all_ones_if].
  - apply (u32_small z Hz).
  - apply Z.land_0_r.
Qed.

Lemma lane_select (p : Z -> Z -> bool) (w a v k : Z) :
  0 <= k < 4 ->
  lane k (Z.land w (map2 (fun x y => all_ones_if (p x y)) a v))
  = if p (lane k a) (lane k v) then lane k w else 0.
Proof.
  intros Hk. rewrite lane_land by lia. rewrite lane_compare by exact Hk.
  apply land_all_ones_if, lane_range.
Qed.

End MaskSelect.

(** X15: AND with a comparison result selects lanes without branching:
    lane [k] of [w & (a op v)] is lane [k] of [w] where the comparison
    holds and zero ([0], resp. [+0.0]) where it does not, for the
    comparisons of [Vect128i] mapped to an instruction and for all six
    comparisons of [Vect128f]. *)
Theorem comparison_mask_selects (w a v : Z) (k x y z xf yf zf : Z) :
  0 <= k < 4 ->
  Vect128i.index a k = Some x ->
  Vect128i.index v k = Some y ->
  Vect128i.index w k = Some z ->
  Vect128f.index a k = Some xf ->
  Vect128f.index v k = Some yf ->
  Vect128f.index w k = Some zf ->
  Forall
    (fun c : (Vect128i.t -> Vect128i.t -> Vect128i.t) * (Z -> Z -> bool) =>
       Vect128i.index (Vect128i.op_and w (fst c a v)) k
       = Some (if snd c x y then z else 0))
    [ (Vect128i.op_lt, Z.ltb); (Vect128i.op_gt, Z.gtb);
      (Vect128i.op_eq, Z.eqb) ]
  /\ Forall
       (fun c : (Vect128f.t -> Vect128f.t -> Vect128f.t) * (Z -> Z -> bool) =>
          Vect128f.index (Vect128f.op_and w (fst c a v)) k
          = Some (if snd c xf yf then zf else 0))
       [ (Vect128f.op_lt, Float32.ltb);
         (Vect128f.op_gt, Float32.gtb);
         (Vect128f.op_eq, Float32.eqb);
         (Vect128f.op_le, fun x y => negb (Float32.gtb x y));
         (Vect128f.op_ge, fun x y => negb (Float32.ltb x y));
         (Vect128f.op_ne, fun x y => negb (Float32.eqb x y)) ].
Proof.
  intros Hk Ha Hv Hw Haf Hvf Hwf.
  rewrite Vect128i_index_lane in Ha, Hv, Hw by exact Hk.
  rewrite Vect128f_index_lane in Haf, Hvf, Hwf by exact Hk.
  injection Ha as <-. injection Hv as <-. injection Hw as <-.
  injection Haf as <-. injection Hvf as <-. injection Hwf as <-.
  split.
  - repeat constructor; cbn [fst snd];
      rewrite Vect128i_index_lane by exact Hk;
      unfold Vect128i.op_and, _mm_and_si128, Vect128i.op_lt, Vect128i.op_gt,
        Vect128i.op_eq, _mm_cmplt_epi32, _mm_cmpgt_epi32, _mm_cmpeq_epi32;
      rewrite lane_select by exact Hk;
      match goal with |- context [if ?b then _ else _] => now destruct b end.
  - repeat constructor; cbn [fst snd];
      rewrite Vect128f_index_lane by exact Hk;
      unfold Vect128f.op_and, _mm_and_ps, Vect128f.op_lt, Vect128f.op_gt,
        Vect128f.op_eq, Vect128f.op_le, Vect128f.op_ge, Vect128f.op_ne,
        _mm_cmplt_ps, _mm_cmpgt_ps, _mm_cmpeq_ps, _mm_cmpngt_ps,
        _mm_cmpnlt_ps, _mm_cmpneq_ps;
      rewrite lane_select by exact Hk; reflexivity.
Qed.

(** Keeping the lanes of (10, 20, 30, 40) where (0, 1, -1, 2147483647)
    is negative: only lane 2 survives. *)
Lemma comparison_mask_selects_witness :
  Forall
    (fun c : (Vect128i.t -> Vect128i.t -> Vect128i.t) * (Z -> Z -> bool) =>
       Vect128i.index
         (Vect128i.op_and (Vect128i.of_lanes 10 20 30 40)
            (fst c (Vect128i.of_lanes 0 1 (-1) 2147483647)
                   (Vect128i.broadcast 0))) 2
       = Some (if snd c (-1) 0 then 30 else 0))
    [ (Vect128i.op_lt, Z.ltb); (Vect128i.op_gt, Z.gtb);
      (Vect128i.op_eq, Z.eqb) ].
Proof.
  refine (proj1 (comparison_mask_selects
                   (Vect128i.of_lanes 10 20 30 40)
                   (Vect128i.of_lanes 0 1 (-1) 2147483647)
                   (Vect128i.broadcast 0)
                   2 (-1) 0 30 0xFFFFFFFF 0 30 _ _ _ _ _ _ _));
    [lia | vm_compute; reflexivity ..].
Defined.

(** X16: a vector built from one scalar reads that scalar back in each of
    its four lanes, for [Vect128i(int32_t)] and for [Vect128f(float)]. *)
Theorem broadcast_fills_every_lane (k i f : Z) :
  0 <= k < 4 ->
  in_int32 i ->
  in_u32 f ->
  Vect128i.index (Vect128i.broadcast i) k = Some i
  /\ Vect128f.index (Vect128f.broadcast f) k = Some f.
Proof.
  intros Hk Hi Hf. split.
  - rewrite Vect128i_index_lane by exact Hk.
    unfold Vect128i.broadcast, _mm_set1_epi32.
    rewrite lane_broadcast by exact Hk.
    now rewrite int32_t_u32, int32_t_id.
  - rewrite Vect128f_index_lane by exact Hk.
    unfold Vect128f.broadcast, _mm_set1_ps.
    rewrite lane_broadcast by exact Hk. f_equal. now apply u32_small.
Qed.

Lemma broadcast_fills_every_lane_witness :
  Vect128i.index (Vect128i.broadcast (-2147483648)) 3 = Some (-2147483648)
  /\ Vect128f.index (Vect128f.broadcast 0x3F99FBE7) 3 = Some 0x3F99FBE7.
Proof.
  apply (broadcast_fills_every_lane 3 (-2147483648) 0x3F99FBE7);
    unfold in_int32, in_u32; lia.
Defined.
